(** * Query-parameter validator (cmd/api/main.go)

    A shallow embedding of [QueryValidator] and of the two library
    packages it leans on ([regexp] and [strings]), followed by the
    properties of the validator.

    Go strings are byte sequences: they are Rocq [string]s, whose
    characters are the 256 values of [ascii].  Go maps are [gmap]s; the
    order in which [range] visits a map is not fixed by the language, so
    the loop of [ValidateQuery] takes the visiting order as an argument
    that is some permutation of the entries of the map. *)

From Stdlib Require Import Ascii String NArith List Bool Lia.
From stdpp Require Import base option list gmap strings fin_maps.

Local Open Scope string_scope.
Local Open Scope list_scope.

(** ** Package [regexp]: syntax trees and matching *)

Module GoRegexp.

(** The operators of [syntax.Regexp] that remain once [+], [?] and
    [{n,m}] are expanded.  A literal is a one-element class.  Classes
    hold inclusive ranges of byte values.

    Go matches rune by rune.  The expressions read here hold classes of
    ASCII bytes only; a rune above 127, or a byte that is no valid
    UTF-8 and is read as U+FFFD, belongs to none of them, and neither
    does any of its bytes: matching byte by byte gives the same
    answer. *)
Inductive Regexp : Type :=
| OpNoMatch
| OpEmptyMatch
| OpCharClass (ranges : list (N * N))
| OpBeginText
| OpEndText
| OpConcat (r1 r2 : Regexp)
| OpAlternate (r1 r2 : Regexp)
| OpStar (r : Regexp).

Definition in_range (c : ascii) (lohi : N * N) : bool :=
  (fst lohi <=? N_of_ascii c)%N && (N_of_ascii c <=? snd lohi)%N.

Definition in_class (ranges : list (N * N)) (c : ascii) : bool :=
  existsb (in_range c) ranges.

(** [nullable bot eot r]: does [r] match the empty string at a position
    that is the beginning of the text iff [bot] and the end of the text
    iff [eot]. *)
Fixpoint nullable (bot eot : bool) (r : Regexp) : bool :=
  match r with
  | OpNoMatch => false
  | OpEmptyMatch => true
  | OpCharClass _ => false
  | OpBeginText => bot
  | OpEndText => eot
  | OpConcat r1 r2 => nullable bot eot r1 && nullable bot eot r2
  | OpAlternate r1 r2 => nullable bot eot r1 || nullable bot eot r2
  | OpStar _ => true
  end.

(** What is left of [r] to match once the byte [c] is read, from a
    position that is the beginning of the text iff [bot]. *)
Fixpoint deriv (bot : bool) (c : ascii) (r : Regexp) : Regexp :=
  match r with
  | OpNoMatch | OpEmptyMatch | OpBeginText | OpEndText => OpNoMatch
  | OpCharClass ranges => if in_class ranges c then OpEmptyMatch else OpNoMatch
  | OpConcat r1 r2 =>
      OpAlternate (OpConcat (deriv bot c r1) r2)
                  (if nullable bot false r1 then deriv bot c r2 else OpNoMatch)
  | OpAlternate r1 r2 => OpAlternate (deriv bot c r1) (deriv bot c r2)
  | OpStar r1 => OpConcat (deriv bot c r1) (OpStar r1)
  end.

(** [matches bot eot r s]: [r] matches exactly the bytes [s], which
    begin at the beginning of the text iff [bot] and end at its end iff
    [eot]. *)
Fixpoint matches (bot eot : bool) (r : Regexp) (s : list ascii) : bool :=
  match s with
  | [] => nullable bot eot r
  | c :: s' => matches false eot (deriv bot c r) s'
  end.

Definition is_nil {A} (l : list A) : bool :=
  match l with [] => true | _ => false end.

(** Does [r] match a prefix of [s], the bytes [before] coming first? *)
Fixpoint match_prefix (r : Regexp) (before : bool) (acc s : list ascii) : bool :=
  matches before (is_nil s) r acc
  || match s with
     | [] => false
     | c :: s' => match_prefix r before (acc ++ [c]) s'
     end.

(** Does [r] match some substring of [s], [bot] telling whether [s]
    starts the text? *)
Fixpoint match_anywhere (r : Regexp) (bot : bool) (s : list ascii) : bool :=
  match_prefix r bot [] s
  || match s with
     | [] => false
     | _ :: s' => match_anywhere r false s'
     end.

(** The method [MatchString] of a compiled expression: the string
    contains some match of [r]. *)
Definition Regexp_MatchString (r : Regexp) (s : string) : bool :=
  match_anywhere r true (list_ascii_of_string s).

(** *** Parsing

    [Compile] below reads the part of the RE2 syntax that the patterns
    of this repository are written in: literals, escapes, positive
    bracket classes, groups, alternation, the repetition operators and
    the two text anchors.  The parser keeps an explicit stack of open
    groups, one frame per open parenthesis.  What it does not read
    (negated classes, [.], flags, Unicode classes, non-ASCII literals)
    is reported as a parse failure of the model. *)

Local Open Scope char_scope.

Definition lit (c : ascii) : Regexp :=
  OpCharClass [(N_of_ascii c, N_of_ascii c)].

Definition perl_d : list (N * N) := [(48, 57)]%N.
Definition perl_w : list (N * N) := [(48, 57); (65, 90); (95, 95); (97, 122)]%N.
Definition perl_s : list (N * N) := [(9, 10); (12, 13); (32, 32)]%N.

Definition plus (r : Regexp) : Regexp := OpConcat r (OpStar r).
Definition quest (r : Regexp) : Regexp := OpAlternate r OpEmptyMatch.

Fixpoint power (n : nat) (r : Regexp) : Regexp :=
  match n with
  | O => OpEmptyMatch
  | S O => r
  | S n' => OpConcat r (power n' r)
  end.

(** [r{min}], [r{min,}] and [r{min,max}], written out. *)
Definition repeat (min : nat) (max : option nat) (r : Regexp) : Regexp :=
  match max with
  | None => match min with
            | O => OpStar r
            | _ => OpConcat (power min r) (OpStar r)
            end
  | Some max =>
      if (max =? min)%nat then power min r
      else match min with
           | O => power max (quest r)
           | _ => OpConcat (power min r) (power (max - min) (quest r))
           end
  end.

Record frame : Type := { alts : list Regexp; items : list Regexp }.

Definition empty_frame : frame := {| alts := []; items := [] |}.

(** [items] holds the pieces of the running concatenation, the latest
    first; [alts] the finished branches of the alternation, the latest
    first. *)
Definition push (r : Regexp) (f : frame) : frame :=
  {| alts := alts f; items := r :: items f |}.

Definition concat (rev_items : list Regexp) : Regexp :=
  match rev_items with
  | [] => OpEmptyMatch
  | r :: rest => fold_left (fun acc x => OpConcat x acc) rest r
  end.

Definition alternate (rev_alts : list Regexp) (last : Regexp) : Regexp :=
  fold_left (fun acc x => OpAlternate x acc) rev_alts last.

Definition vertical_bar (f : frame) : frame :=
  {| alts := concat (items f) :: alts f; items := [] |}.

Definition close_frame (f : frame) : Regexp :=
  alternate (alts f) (concat (items f)).

Definition Error (code : string) (expr : list ascii) : string :=
  ("error parsing regexp: " ++ code ++ ": `" ++ string_of_list_ascii expr ++ "`")%string.

Definition ErrMissingParen : string := "missing closing )".
Definition ErrUnexpectedParen : string := "unexpected )".
Definition ErrMissingBracket : string := "missing closing ]".
Definition ErrMissingRepeatArgument : string := "missing argument to repetition operator".
Definition ErrInvalidRepeatOp : string := "invalid nested repetition operator".
Definition ErrInvalidRepeatSize : string := "invalid repeat count".
Definition ErrInvalidCharRange : string := "invalid character class range".
Definition ErrInvalidEscape : string := "invalid escape sequence".
Definition ErrTrailingBackslash : string := "trailing backslash at end of expression".
Definition ErrInternalError : string := "regexp/syntax: internal error".
Definition ErrOutsideModel : string := "syntax outside the modelled fragment".

Definition is_digit (c : ascii) : bool := in_class perl_d c.
Definition is_alnum (c : ascii) : bool :=
  in_class [(48, 57); (65, 90); (97, 122)]%N c.
Definition is_ascii (c : ascii) : bool := (N_of_ascii c <? 128)%N.

(** A backslash escape that stands for one byte. *)
Definition escape_char (c : ascii) : option ascii :=
  match c with
  | "a" => Some (ascii_of_N 7)
  | "f" => Some (ascii_of_N 12)
  | "n" => Some (ascii_of_N 10)
  | "r" => Some (ascii_of_N 13)
  | "t" => Some (ascii_of_N 9)
  | "v" => Some (ascii_of_N 11)
  | _ => if is_ascii c && negb (is_alnum c) then Some c else None
  end.

Definition escape_class (c : ascii) : option (list (N * N)) :=
  match c with
  | "d" => Some perl_d
  | "w" => Some perl_w
  | "s" => Some perl_s
  | _ => None
  end.

(** Escapes that RE2 reads and this model does not. *)
Definition escape_outside (c : ascii) : bool :=
  match c with
  | "b" | "B" | "C" | "Q" | "E" | "p" | "P" | "D" | "S" | "W" | "x" => true
  | _ => is_digit c
  end.

(** One member of a bracket class: the byte it denotes and the rest. *)
Definition parseClassChar (t : list ascii) : option (ascii * list ascii) + string :=
  match t with
  | [] => inl None
  | "\" :: [] => inr (Error ErrTrailingBackslash [])
  | "\" :: c :: t' =>
      match escape_char c with
      | Some b => inl (Some (b, t'))
      | None => if escape_outside c then inr (Error ErrOutsideModel ["\"; c])
                else inr (Error ErrInvalidEscape ["\"; c])
      end
  | c :: t' => if is_ascii c then inl (Some (c, t'))
               else inr (Error ErrOutsideModel [c])
  end.

(** A single byte or a range [lo-hi] inside a bracket class. *)
Definition parseClassRange (t : list ascii) : (list (N * N) * list ascii) + string :=
  match parseClassChar t with
  | inr e => inr e
  | inl None => inr (Error ErrMissingBracket t)
  | inl (Some (lo, t1)) =>
      match t1 with
      | "-" :: c2 :: t1' =>
          if Ascii.eqb c2 "]" then inl ([(N_of_ascii lo, N_of_ascii lo)], t1)
          else match parseClassChar (c2 :: t1') with
               | inr e => inr e
               | inl None => inr (Error ErrMissingBracket t)
               | inl (Some (hi, t2)) =>
                   if (N_of_ascii hi <? N_of_ascii lo)%N
                   then inr (Error ErrInvalidCharRange (firstn (length t - length t2) t))
                   else inl ([(N_of_ascii lo, N_of_ascii hi)], t2)
               end
      | _ => inl ([(N_of_ascii lo, N_of_ascii lo)], t1)
      end
  end.

Definition parseClassItem (t : list ascii) : (list (N * N) * list ascii) + string :=
  match t with
  | "[" :: ":" :: _ => inr (Error ErrOutsideModel t)
  | "\" :: c :: t' =>
      match escape_class c with
      | Some ranges => inl (ranges, t')
      | None => parseClassRange t
      end
  | _ => parseClassRange t
  end.

(** The body of a bracket class; [whole] is the text from the opening
    bracket on.  A closing bracket that comes first is a member. *)
Fixpoint parseClass (fuel : nat) (whole : list ascii) (first : bool)
    (acc : list (N * N)) (t : list ascii) : (list (N * N) * list ascii) + string :=
  match fuel with
  | O => inr (Error ErrMissingBracket whole)
  | S fuel' =>
      match t with
      | [] => inr (Error ErrMissingBracket whole)
      | c :: t' =>
          if Ascii.eqb c "]" && negb first then inl (acc, t')
          else match parseClassItem t with
               | inr e => inr e
               | inl (ranges, rest) => parseClass fuel' whole false (acc ++ ranges) rest
               end
      end
  end.

(** Decimal digits at the head of [t]: their value and the rest. *)
Fixpoint parseInt (t : list ascii) (acc : N) (seen : bool) : option (N * list ascii) :=
  match t with
  | c :: t' =>
      if is_digit c then parseInt t' (10 * acc + (N_of_ascii c - 48))%N true
      else if seen then Some (acc, t) else None
  | [] => if seen then Some (acc, t) else None
  end.

Definition leading_zero (t : list ascii) : bool :=
  match t with
  | "0" :: c :: _ => is_digit c
  | _ => false
  end.

(** [{n}], [{n,}] or [{n,m}] after the opening brace: the bounds and the
    rest, or [None] when the brace is an ordinary byte. *)
Definition parseRepeat (t : list ascii) : option (N * option N * list ascii) :=
  if leading_zero t then None else
  match parseInt t 0%N false with
  | None => None
  | Some (min, t1) =>
      match t1 with
      | "}" :: t2 => Some (min, Some min, t2)
      | "," :: "}" :: t2 => Some (min, None, t2)
      | "," :: t2 =>
          if leading_zero t2 then None else
          match parseInt t2 0%N false with
          | Some (max, "}" :: t3) => Some (min, Some max, t3)
          | _ => None
          end
      | _ => None
      end
  end.

Definition repeat_ok (min : N) (max : option N) : bool :=
  (min <=? 1000)%N
  && match max with
     | None => true
     | Some m => (m <=? 1000)%N && (min <=? m)%N
     end.

(** Apply a repetition operator, written [op] in the pattern, to the
    latest piece of the running concatenation.  [lastRepeat] is the text
    of the repetition operator that comes just before, if any. *)
Definition repeat_op (f : Regexp -> Regexp) (lastRepeat op : list ascii)
    (cur : frame) : frame + string :=
  match lastRepeat with
  | _ :: _ => inr (Error ErrInvalidRepeatOp (lastRepeat ++ op))
  | [] =>
      match items cur with
      | [] => inr (Error ErrMissingRepeatArgument op)
      | r :: rest => inl {| alts := alts cur; items := f r :: rest |}
      end
  end.

(** A repetition operator may be followed by [?] (prefer the shorter
    match), which does not change what is matched. *)
Definition lazy_mark (op t : list ascii) : list ascii * list ascii :=
  match t with
  | "?" :: t' => (op ++ ["?"], t')
  | _ => (op, t)
  end.

Fixpoint parse (fuel : nat) (whole : list ascii) (stack : list frame)
    (cur : frame) (lastRepeat : list ascii) (t : list ascii) : Regexp + string :=
  match fuel with
  | O =>
      match t with
      | [] => match stack with
              | [] => inl (close_frame cur)
              | _ :: _ => inr (Error ErrMissingParen whole)
              end
      | _ :: _ => inr (Error ErrInternalError whole)
      end
  | S fuel' =>
      match t with
      | [] => match stack with
              | [] => inl (close_frame cur)
              | _ :: _ => inr (Error ErrMissingParen whole)
              end
      | "(" :: "?" :: _ => inr (Error ErrOutsideModel t)
      | "(" :: t' => parse fuel' whole (cur :: stack) empty_frame [] t'
      | "|" :: t' => parse fuel' whole stack (vertical_bar cur) [] t'
      | ")" :: t' =>
          match stack with
          | [] => inr (Error ErrUnexpectedParen whole)
          | up :: stack' => parse fuel' whole stack' (push (close_frame cur) up) [] t'
          end
      | "^" :: t' => parse fuel' whole stack (push OpBeginText cur) [] t'
      | "$" :: t' => parse fuel' whole stack (push OpEndText cur) [] t'
      | "." :: _ => inr (Error ErrOutsideModel ["."])
      | "[" :: "^" :: _ => inr (Error ErrOutsideModel t)
      | "[" :: t' =>
          match parseClass (length t') t true [] t' with
          | inr e => inr e
          | inl (ranges, rest) =>
              parse fuel' whole stack (push (OpCharClass ranges) cur) [] rest
          end
      | "*" :: t' =>
          let '(op, rest) := lazy_mark ["*"] t' in
          match repeat_op OpStar lastRepeat op cur with
          | inr e => inr e
          | inl cur' => parse fuel' whole stack cur' op rest
          end
      | "+" :: t' =>
          let '(op, rest) := lazy_mark ["+"] t' in
          match repeat_op plus lastRepeat op cur with
          | inr e => inr e
          | inl cur' => parse fuel' whole stack cur' op rest
          end
      | "?" :: t' =>
          let '(op, rest) := lazy_mark ["?"] t' in
          match repeat_op quest lastRepeat op cur with
          | inr e => inr e
          | inl cur' => parse fuel' whole stack cur' op rest
          end
      | "{" :: t' =>
          match parseRepeat t' with
          | None => parse fuel' whole stack (push (lit "{") cur) [] t'
          | Some (min, max, after) =>
              let '(op, rest) := lazy_mark (firstn (length t - length after) t) after in
              if repeat_ok min max then
                match repeat_op (repeat (N.to_nat min) (N.to_nat <$> max))
                        lastRepeat op cur with
                | inr e => inr e
                | inl cur' => parse fuel' whole stack cur' op rest
                end
              else inr (Error ErrInvalidRepeatSize (firstn (length t - length after) t))
          end
      | "\" :: [] => inr (Error ErrTrailingBackslash [])
      | "\" :: "A" :: t' => parse fuel' whole stack (push OpBeginText cur) [] t'
      | "\" :: "z" :: t' => parse fuel' whole stack (push OpEndText cur) [] t'
      | "\" :: c :: t' =>
          match escape_class c with
          | Some ranges => parse fuel' whole stack (push (OpCharClass ranges) cur) [] t'
          | None =>
              match escape_char c with
              | Some b => parse fuel' whole stack (push (lit b) cur) [] t'
              | None => if escape_outside c then inr (Error ErrOutsideModel ["\"; c])
                        else inr (Error ErrInvalidEscape ["\"; c])
              end
          end
      | c :: t' =>
          if is_ascii c then parse fuel' whole stack (push (lit c) cur) [] t'
          else inr (Error ErrOutsideModel [c])
      end
  end.

(** [regexp.Compile]: the syntax tree, or the text of the parse error. *)
Definition Compile (expr : string) : Regexp + string :=
  let t := list_ascii_of_string expr in
  parse (length t) t [] empty_frame [] t.

Local Close Scope char_scope.

(** *** What an expression stands for

    The strings an expression stands for, read off its syntax: the
    matcher above is checked against this reading.  The two flags say
    whether the string begins at the beginning of the text and ends at
    its end. *)
Inductive denotes : bool -> bool -> Regexp -> list ascii -> Prop :=
| denotes_empty b e : denotes b e OpEmptyMatch []
| denotes_class b e cl c :
    in_class cl c = true -> denotes b e (OpCharClass cl) [c]
| denotes_begin e : denotes true e OpBeginText []
| denotes_end b : denotes b true OpEndText []
| denotes_concat b e r1 r2 s1 s2 :
    denotes b (e && is_nil s2) r1 s1 ->
    denotes (b && is_nil s1) e r2 s2 ->
    denotes b e (OpConcat r1 r2) (s1 ++ s2)
| denotes_left b e r1 r2 s : denotes b e r1 s -> denotes b e (OpAlternate r1 r2) s
| denotes_right b e r1 r2 s : denotes b e r2 s -> denotes b e (OpAlternate r1 r2) s
| denotes_star_nil b e r : denotes b e (OpStar r) []
| denotes_star_cons b e r c s1 s2 :
    denotes b (e && is_nil s2) r (c :: s1) ->
    denotes false e (OpStar r) s2 ->
    denotes b e (OpStar r) (c :: s1 ++ s2).

(** *** Two shapes, for the proofs *)

(** One or more bytes of a class. *)
Definition nonempty_all (p : ascii -> bool) (s : list ascii) : bool :=
  match s with
  | [] => false
  | c :: s' => p c && forallb p s'
  end.

(** Expressions every match of which reaches the end of the text. *)
Fixpoint ends_text (r : Regexp) : bool :=
  match r with
  | OpEndText => true
  | OpConcat r1 r2 => ends_text r1 || ends_text r2
  | OpAlternate r1 r2 => ends_text r1 && ends_text r2
  | _ => false
  end.

End GoRegexp.

(** ** The three patterns of the validator *)

Module Patterns.
Import GoRegexp.
Local Open Scope char_scope.

Definition default_pattern : string := "^[a-zA-Z][a-zA-Z0-9_]*$".
Definition number_pattern : string := "^-?\d+(\.\d+)?$".
Definition date_pattern : string := "^\d{4}-\d{2}-\d{2}$".

Definition letters : list (N * N) := [(97, 122); (65, 90)]%N.
Definition word_bytes : list (N * N) := [(97, 122); (65, 90); (48, 57); (95, 95)]%N.
Definition digit : Regexp := OpCharClass perl_d.

Definition default_body : Regexp :=
  OpConcat (OpCharClass letters) (OpConcat (OpStar (OpCharClass word_bytes)) OpEndText).

Definition number_body : Regexp :=
  OpConcat (quest (lit "-"))
    (OpConcat (plus digit)
       (OpConcat (quest (OpConcat (lit ".") (plus digit))) OpEndText)).

Definition date_body : Regexp :=
  OpConcat (power 4 digit)
    (OpConcat (lit "-")
       (OpConcat (power 2 digit)
          (OpConcat (lit "-") (OpConcat (power 2 digit) OpEndText)))).

(** The strings the patterns stand for, said without expressions. *)

Definition is_letter (c : ascii) : bool :=
  let n := N_of_ascii c in
  ((97 <=? n) && (n <=? 122) || (65 <=? n) && (n <=? 90))%N.

Definition is_underscore (c : ascii) : bool := Ascii.eqb c "_".

(** An ASCII letter, then letters, digits and underscores. *)
Definition param_name_syntax (s : list ascii) : bool :=
  match s with
  | [] => false
  | c :: rest =>
      is_letter c
      && forallb (fun x => is_letter x || is_digit x || is_underscore x) rest
  end.

Definition digits1 (s : list ascii) : Prop := s <> [] /\ Forall (fun c => is_digit c = true) s.

(** An optional minus sign, one or more digits and, optionally, a dot
    with one or more digits after it. *)
Inductive number_syntax : list ascii -> Prop :=
| number_intro sign int frac :
    sign = [] \/ sign = ["-"] ->
    digits1 int ->
    frac = [] \/ (exists f, frac = "." :: f /\ digits1 f) ->
    number_syntax (sign ++ int ++ frac).

(** Four digits, a dash, two digits, a dash, two digits. *)
Definition date_syntax (s : list ascii) : bool :=
  match s with
  | [y1; y2; y3; y4; dash1; m1; m2; dash2; d1; d2] =>
      is_digit y1 && is_digit y2 && is_digit y3 && is_digit y4
      && Ascii.eqb dash1 "-"
      && is_digit m1 && is_digit m2
      && Ascii.eqb dash2 "-"
      && is_digit d1 && is_digit d2
  | _ => false
  end.

End Patterns.

(** ** Package [strings] *)

Module GoStrings.

(** [strings.ToLower] lowers an ASCII-only string byte by byte and hands
    any other string to [Map(unicode.ToLower, s)], which reads the
    Unicode case tables.  The tables are not modelled: their effect on a
    string that holds a byte above 127 is a parameter. *)
Class UnicodeTables : Type := { Map_ToLower : string -> string }.

Definition RuneSelf : N := 128.

Fixpoint isASCII (s : string) : bool :=
  match s with
  | EmptyString => true
  | String c s' => (N_of_ascii c <? RuneSelf)%N && isASCII s'
  end.

Definition is_upper (c : ascii) : bool :=
  (65 <=? N_of_ascii c)%N && (N_of_ascii c <=? 90)%N.

Fixpoint hasUpper (s : string) : bool :=
  match s with
  | EmptyString => false
  | String c s' => is_upper c || hasUpper s'
  end.

Definition lower_byte (c : ascii) : ascii :=
  if is_upper c then ascii_of_N (N_of_ascii c + 32) else c.

Fixpoint lower_bytes (s : string) : string :=
  match s with
  | EmptyString => EmptyString
  | String c s' => String (lower_byte c) (lower_bytes s')
  end.

Definition ToLower `{UnicodeTables} (s : string) : string :=
  if isASCII s then
    if negb (hasUpper s) then s else lower_bytes s
  else Map_ToLower s.

End GoStrings.

(** ** The validator *)

(** What the validator asks of package [regexp]: a type of compiled
    expressions, [Compile] (the expression, or the text of the parse
    error) and the method [MatchString]. *)
Class RegexpPackage : Type := {
  Regexp : Type;
  Compile : string -> Regexp + string;
  MatchString : Regexp -> string -> bool
}.

(** The function [regexp.MatchString(pattern, s)]: compile, then match;
    a pattern that does not compile gives [false] and the error. *)
Definition regexp_MatchString `{RegexpPackage} (pattern s : string)
    : bool * option string :=
  match Compile pattern with
  | inl re => (MatchString re s, None)
  | inr err => (false, Some err)
  end.

(** The model of package [regexp] given above. *)
#[export] Instance re2 : RegexpPackage := {|
  Regexp := GoRegexp.Regexp;
  Compile := GoRegexp.Compile;
  MatchString := GoRegexp.Regexp_MatchString
|}.

(** *** Methods as state transformers *)

Definition State (S A : Type) : Type := S -> A * S.

Definition ret {S A} (a : A) : State S A := fun s => (a, s).

Definition bind {S A B} (m : State S A) (k : A -> State S B) : State S B :=
  fun s => let (a, s') := m s in k a s'.

Definition get {S} : State S S := fun s => (s, s).

Definition put {S} (s : S) : State S unit := fun _ => (tt, s).

Notation "'let!' x ':=' m 'in' k" := (bind m (fun x => k))
  (at level 10, x pattern, m at level 100, k at level 200).

(** The field [Parameter] of the source is [Parameter_] here, the word
    being reserved. *)
Record QueryValidationError : Type := {
  Parameter_ : string;
  Value : string;
  Message : string
}.

#[export] Instance QueryValidationError_eq_dec : EqDecision QueryValidationError.
Proof. solve_decision. Defined.

(** The request context, as far as the validator reads it. *)
Record Ctx : Type := { Queries : gmap string string }.

(** The orders in which a [range] loop may visit a map. *)
Definition range_order {V} (m : gmap string V) (order : list (string * V)) : Prop :=
  order ≡ₚ map_to_list m.

Section Validator.
Context `{RegexpPackage} `{GoStrings.UnicodeTables}.

(** The two maps are those that [NewQueryValidator], the only
    constructor, allocates; a nil map is not modelled.  A registered
    validator is a total predicate on strings. *)
Record QueryValidator : Type := {
  paramPatterns : gmap string Regexp;
  typeValidators : gmap string (string -> bool)
}.

Definition AddParamPattern (name pattern : string)
    : State QueryValidator (option string) :=
  match Compile pattern with
  | inr err => ret (Some ("invalid pattern for " +:+ name +:+ ": " +:+ err))
  | inl regex =>
      let! qv := get in
      let! _ := put {| paramPatterns := <[name := regex]> (paramPatterns qv);
                       typeValidators := typeValidators qv |} in
      ret None
  end.

Definition AddTypeValidator (name : string) (validator : string -> bool)
    : State QueryValidator unit :=
  let! qv := get in
  put {| paramPatterns := paramPatterns qv;
         typeValidators := <[name := validator]> (typeValidators qv) |}.

Definition number_validator (v : string) : bool :=
  let '(matched, _) := regexp_MatchString "^-?\d+(\.\d+)?$" v in
  matched.

Definition boolean_validator (v : string) : bool :=
  let v := GoStrings.ToLower v in
  String.eqb v "true" || String.eqb v "false" || String.eqb v "1" || String.eqb v "0".

Definition date_validator (v : string) : bool :=
  let '(matched, _) := regexp_MatchString "^\d{4}-\d{2}-\d{2}$" v in
  matched.

(** The error of [AddParamPattern] is dropped by the constructor, as in
    the source. *)
Definition NewQueryValidator : QueryValidator :=
  snd ((let! _ := AddParamPattern "default" "^[a-zA-Z][a-zA-Z0-9_]*$" in
        let! _ := AddTypeValidator "number" number_validator in
        let! _ := AddTypeValidator "boolean" boolean_validator in
        AddTypeValidator "date" date_validator)
         {| paramPatterns := ∅; typeValidators := ∅ |}).

Definition validateParamName (param : string) : State QueryValidator bool :=
  let! qv := get in
  match paramPatterns qv !! "default" with
  | None => ret true
  | Some pattern => ret (MatchString pattern param)
  end.

Definition validateParamValue (value expectedType : string)
    : State QueryValidator bool :=
  let! qv := get in
  match typeValidators qv !! expectedType with
  | None => ret true
  | Some validator => ret (validator value)
  end.

(** [ValidateQuery] reaches two objects through references: the
    validator and the [rules] map. *)
Record Heap : Type := {
  heap_qv : QueryValidator;
  heap_rules : gmap string string
}.

Definition on_qv {A} (m : State QueryValidator A) : State Heap A :=
  fun h => let (a, qv') := m (heap_qv h) in
           (a, {| heap_qv := qv'; heap_rules := heap_rules h |}).

Definition rules_lookup (param : string) : State Heap (option string) :=
  let! h := get in ret (heap_rules h !! param).

(** The body of the [range] loop, over the pairs in the order in which
    they are visited; [errors] is the slice built so far. *)
Fixpoint range_queries (order : list (string * string))
    (errors : list QueryValidationError) : State Heap (list QueryValidationError) :=
  match order with
  | [] => ret errors
  | (param, value) :: rest =>
      let! name_ok := on_qv (validateParamName param) in
      if negb name_ok then
        range_queries rest
          (errors ++ [{| Parameter_ := param; Value := value;
                         Message := "invalid parameter name format" |}])
      else
        let! rule := rules_lookup param in
        match rule with
        | None =>
            range_queries rest
              (errors ++ [{| Parameter_ := param; Value := value;
                             Message := "unexpected parameter" |}])
        | Some expectedType =>
            let! value_ok := on_qv (validateParamValue value expectedType) in
            if negb value_ok then
              range_queries rest
                (errors ++ [{| Parameter_ := param; Value := value;
                               Message := "invalid value for type " +:+ expectedType |}])
            else range_queries rest errors
        end
  end.

(** [ValidateQuery(c, rules)], run on the heap that holds the validator
    and [rules], the pairs of [c.Queries()] being visited in [order]. *)
Definition ValidateQuery (order : list (string * string))
    : State Heap (list QueryValidationError) :=
  range_queries order [].

End Validator.

(** *** The three checks, as the specification words them *)

Section ThreeStepCheck.
Context `{RegexpPackage}.

(** The default name pattern is registered and [param] does not match
    it. *)
Definition name_pattern_rejects (qv : QueryValidator) (param : string) : bool :=
  match paramPatterns qv !! "default" with
  | Some pattern => negb (MatchString pattern param)
  | None => false
  end.

(** A validator is registered under [tag] and rejects [value]. *)
Definition validator_rejects (qv : QueryValidator) (tag value : string) : bool :=
  match typeValidators qv !! tag with
  | Some validator => negb (validator value)
  | None => false
  end.

Definition error_record (param value message : string) : QueryValidationError :=
  {| Parameter_ := param; Value := value; Message := message |}.

(** The records one observed pair gives rise to: none or one. *)
Definition three_step_check (qv : QueryValidator) (rules : gmap string string)
    (pv : string * string) : list QueryValidationError :=
  let (param, value) := pv in
  if name_pattern_rejects qv param then
    [error_record param value "invalid parameter name format"]
  else
    match rules !! param with
    | None => [error_record param value "unexpected parameter"]
    | Some tag =>
        if validator_rejects qv tag value then
          [error_record param value ("invalid value for type " +:+ tag)]
        else []
    end.

(** An observed pair is invalid when one of the three checks fails. *)
Definition invalid_param (qv : QueryValidator) (rules : gmap string string)
    (pv : string * string) : bool :=
  name_pattern_rejects qv pv.1
  || match rules !! pv.1 with
     | None => true
     | Some tag => validator_rejects qv tag pv.2
     end.

End ThreeStepCheck.

(** *** Data for the examples *)

(** The rules of [getAllUsersHandler]. *)
Definition handler_rules : gmap string string :=
  <["age" := "number"]> (<["status" := "string"]> (<["search" := "string"]> ∅)).

(** A request with one valid and three invalid parameters. *)
Definition example_ctx : Ctx :=
  {| Queries := <["age" := "abc"]> (<["1bad" := "x"]>
                  (<["unknown" := "x"]> (<["status" := "active"]> ∅))) |}.

(** Case tables that change nothing, for examples that need some. *)
Definition identity_tables : GoStrings.UnicodeTables :=
  {| GoStrings.Map_ToLower := fun s => s |}.

Definition example_validator : QueryValidator :=
  @NewQueryValidator re2 identity_tables.

Definition example_heap : Heap :=
  {| heap_qv := example_validator; heap_rules := handler_rules |}.

(** A validator with empty tables. *)
Definition empty_validator : @QueryValidator re2 :=
  {| paramPatterns := ∅; typeValidators := ∅ |}.

(** *** The route handler *)

(** What a handler leaves behind: nothing written (it returns nil), or a
    status code with the JSON object whose [errors] field is the slice
    given. *)
Record Response : Type := {
  resp_status : nat;
  resp_errors : list QueryValidationError
}.

Definition StatusBadRequest : nat := 400.

(** [getAllUsersHandler(c)]: a fresh validator, the fixed rules, and a
    400 answer when [ValidateQuery] returns a slice that is not empty.
    [order] is the order in which the pairs of [c.Queries()] are
    visited. *)
Definition getAllUsersHandler `{RegexpPackage} `{GoStrings.UnicodeTables}
    (order : list (string * string)) : option Response :=
  let validator := NewQueryValidator in
  let rules := handler_rules in
  let errors :=
    (ValidateQuery order {| heap_qv := validator; heap_rules := rules |}).1 in
  if (0 <? length errors)%nat then
    Some {| resp_status := StatusBadRequest; resp_errors := errors |}
  else None.

(** A regexp package that compiles nothing, to exercise the paths on
    which the error of [Compile] is dropped. *)
Definition refusing_package : RegexpPackage := {|
  Regexp := unit;
  Compile := fun _ => inr "refused";
  MatchString := fun _ _ => false
|}.

(** * Proofs *)

(** ** What the matcher computes *)

Module RegexpFacts.
Import GoRegexp.

Lemma matches_NoMatch b e s : matches b e OpNoMatch s = false.
Proof. revert b; induction s as [|c s IH]; intros b; simpl; auto. Qed.

Lemma matches_Alternate b e r1 r2 s :
  matches b e (OpAlternate r1 r2) s = matches b e r1 s || matches b e r2 s.
Proof.
  revert b r1 r2; induction s as [|c s IH]; intros b r1 r2; simpl; auto.
Qed.

Lemma matches_EmptyMatch b e s : matches b e OpEmptyMatch s = is_nil s.
Proof. destruct s; simpl; auto using matches_NoMatch. Qed.

Lemma matches_BeginText b e s : matches b e OpBeginText s = is_nil s && b.
Proof. destruct s; simpl; auto using matches_NoMatch. Qed.

Lemma matches_EndText b e s : matches b e OpEndText s = is_nil s && e.
Proof. destruct s; simpl; auto using matches_NoMatch. Qed.

Lemma matches_CharClass b e cl s :
  matches b e (OpCharClass cl) s =
  match s with
  | [c] => in_class cl c
  | _ => false
  end.
Proof.
  destruct s as [|c s]; simpl; auto.
  destruct (in_class cl c).
  - rewrite matches_EmptyMatch. destruct s; auto.
  - rewrite matches_NoMatch. destruct s; auto.
Qed.

(** A concatenation matches [s] iff [s] splits in two parts matched by
    the two operands, each at its own place in the text. *)
Lemma matches_Concat b e r1 r2 s :
  matches b e (OpConcat r1 r2) s = true <->
  exists s1 s2, s = s1 ++ s2
    /\ matches b (e && is_nil s2) r1 s1 = true
    /\ matches (b && is_nil s1) e r2 s2 = true.
Proof.
  revert b r1 r2; induction s as [|c s IH]; intros b r1 r2.
  - simpl. rewrite andb_true_iff. split.
    + intros [H1 H2]. exists [], []. simpl.
      rewrite !andb_true_r. auto.
    + intros (s1 & s2 & Hs & H1 & H2).
      symmetry in Hs. apply app_eq_nil in Hs as [-> ->].
      simpl in *. rewrite !andb_true_r in *. auto.
  - simpl. rewrite matches_Alternate, orb_true_iff, IH. split.
    + intros [(s1 & s2 & -> & H1 & H2) | H].
      * exists (c :: s1), s2. simpl. rewrite andb_false_r. simpl in H2. auto.
      * destruct (nullable b false r1) eqn:Hn;
          [| rewrite matches_NoMatch in H; discriminate].
        exists [], (c :: s). simpl.
        rewrite andb_false_r, andb_true_r. auto.
    + intros (s1 & s2 & Hs & H1 & H2). destruct s1 as [|c1 s1].
      * simpl in Hs. subst s2. simpl in H1, H2.
        rewrite andb_false_r in H1. rewrite andb_true_r in H2.
        right. rewrite H1. exact H2.
      * simpl in Hs. injection Hs as <- ->. left.
        exists s1, s2. simpl in H1, H2. rewrite andb_false_r in H2.
        simpl. auto.
Qed.

Lemma matches_Concat_EmptyMatch b e r s :
  matches b e (OpConcat OpEmptyMatch r) s = matches b e r s.
Proof.
  apply eq_true_iff_eq. rewrite matches_Concat. split.
  - intros (s1 & s2 & -> & H1 & H2).
    rewrite matches_EmptyMatch in H1. destruct s1; [|discriminate].
    simpl in *. rewrite andb_true_r in H2. exact H2.
  - intros H. exists [], s. simpl. rewrite andb_true_r. auto.
Qed.

Lemma matches_Concat_NoMatch b e r s :
  matches b e (OpConcat OpNoMatch r) s = false.
Proof.
  apply not_true_is_false. rewrite matches_Concat.
  intros (s1 & s2 & _ & H1 & _). rewrite matches_NoMatch in H1. discriminate.
Qed.

(** A class under a star matches the strings of members of the class. *)
Lemma matches_Star_class b e cl s :
  matches b e (OpStar (OpCharClass cl)) s = forallb (in_class cl) s.
Proof.
  revert b; induction s as [|c s IH]; intros b; simpl; auto.
  destruct (in_class cl c); simpl.
  - rewrite matches_Concat_EmptyMatch. apply IH.
  - apply matches_Concat_NoMatch.
Qed.

(** The matcher accepts what the expression stands for, and nothing
    else. *)
Lemma matches_denotes b e r s : matches b e r s = true <-> denotes b e r s.
Proof.
  split.
  - revert b e s.
    induction r as [| | cl | | | r1 IH1 r2 IH2 | r1 IH1 r2 IH2 | r IH];
      intros b e s Hm.
    + rewrite matches_NoMatch in Hm. discriminate.
    + rewrite matches_EmptyMatch in Hm. destruct s; [constructor | discriminate].
    + rewrite matches_CharClass in Hm.
      destruct s as [|c [|c' s]]; try discriminate. now constructor.
    + rewrite matches_BeginText in Hm. apply andb_true_iff in Hm as [Hs ->].
      destruct s; [constructor | discriminate].
    + rewrite matches_EndText in Hm. apply andb_true_iff in Hm as [Hs ->].
      destruct s; [constructor | discriminate].
    + apply matches_Concat in Hm as (s1 & s2 & -> & H1 & H2).
      constructor; auto.
    + rewrite matches_Alternate in Hm. apply orb_true_iff in Hm as [Hm | Hm].
      * apply denotes_left. auto.
      * apply denotes_right. auto.
    + remember (length s) as n eqn:Hn. revert b s Hn Hm.
      induction n as [n IHn] using lt_wf_ind. intros b s Hn Hm.
      destruct s as [|c s]; [constructor|].
      simpl in Hm. apply matches_Concat in Hm as (s1 & s2 & -> & H1 & H2).
      simpl in H2. constructor.
      * apply IH. exact H1.
      * apply (IHn (length s2)); [|reflexivity | exact H2].
        subst n. simpl. rewrite length_app. lia.
  - induction 1 as [b e | b e cl c Hc | e | b | b e r1 r2 s1 s2 _ IH1 _ IH2
                    | b e r1 r2 s _ IH | b e r1 r2 s _ IH | b e r
                    | b e r c s1 s2 _ IH1 _ IH2].
    + reflexivity.
    + rewrite matches_CharClass. exact Hc.
    + reflexivity.
    + reflexivity.
    + apply matches_Concat. eauto.
    + rewrite matches_Alternate, IH. reflexivity.
    + rewrite matches_Alternate, IH. apply orb_true_r.
    + reflexivity.
    + simpl. apply matches_Concat. exists s1, s2. simpl. auto.
Qed.

Lemma match_prefix_spec r before acc s :
  match_prefix r before acc s = true <->
  exists s2 s3, s = s2 ++ s3
    /\ matches before (is_nil s3) r (acc ++ s2) = true.
Proof.
  revert acc; induction s as [|c s IH]; intros acc; simpl.
  - rewrite orb_false_r. split.
    + intros H. exists [], []. rewrite ?app_nil_r. auto.
    + intros (s2 & s3 & Hs & H). symmetry in Hs.
      apply app_eq_nil in Hs as [-> ->]. rewrite ?app_nil_r in H. exact H.
  - rewrite orb_true_iff, IH. split.
    + intros [H | (s2 & s3 & -> & H)].
      * exists [], (c :: s). rewrite ?app_nil_r. auto.
      * exists (c :: s2), s3. rewrite <- app_assoc in H. auto.
    + intros (s2 & s3 & Hs & H). destruct s2 as [|c2 s2].
      * simpl in Hs. subst s3. rewrite ?app_nil_r in H. auto.
      * simpl in Hs. injection Hs as <- ->. right.
        exists s2, s3. rewrite <- app_assoc. auto.
Qed.

Lemma match_anywhere_spec r bot s :
  match_anywhere r bot s = true <->
  exists s1 s2 s3, s = s1 ++ s2 ++ s3
    /\ matches (bot && is_nil s1) (is_nil s3) r s2 = true.
Proof.
  revert bot; induction s as [|c s IH]; intros bot.
  - change (match_anywhere r bot [])
      with (match_prefix r bot [] [] || false).
    rewrite orb_false_r, match_prefix_spec. split.
    + intros (s2 & s3 & Hs & H). exists [], s2, s3.
      simpl in *. rewrite andb_true_r. auto.
    + intros (s1 & s2 & s3 & Hs & H). symmetry in Hs.
      apply app_eq_nil in Hs as [-> Hs].
      exists s2, s3. simpl in *. rewrite andb_true_r in H. auto.
  - change (match_anywhere r bot (c :: s))
      with (match_prefix r bot [] (c :: s) || match_anywhere r false s).
    rewrite orb_true_iff, IH, match_prefix_spec. split.
    + intros [(s2 & s3 & Hs & H) | (s1 & s2 & s3 & -> & H)].
      * exists [], s2, s3. simpl in *. rewrite andb_true_r. auto.
      * exists (c :: s1), s2, s3. simpl in *. rewrite andb_false_r. auto.
    + intros (s1 & s2 & s3 & Hs & H). destruct s1 as [|c1 s1].
      * left. exists s2, s3. simpl in *. rewrite andb_true_r in H. auto.
      * right. simpl in Hs. injection Hs as <- ->.
        exists s1, s2, s3. simpl in *. rewrite andb_false_r in H. auto.
Qed.

(** [MatchString]: some substring is matched, the anchors seeing where
    in the text it lies. *)
Lemma MatchString_spec r s :
  Regexp_MatchString r s = true <->
  exists s1 s2 s3, list_ascii_of_string s = s1 ++ s2 ++ s3
    /\ matches (is_nil s1) (is_nil s3) r s2 = true.
Proof. unfold Regexp_MatchString. apply match_anywhere_spec. Qed.

Lemma MatchString_denotes r s :
  Regexp_MatchString r s = true <->
  exists s1 s2 s3, list_ascii_of_string s = s1 ++ s2 ++ s3
    /\ denotes (is_nil s1) (is_nil s3) r s2.
Proof.
  rewrite MatchString_spec.
  split; intros (s1 & s2 & s3 & Hs & Hm); exists s1, s2, s3;
    (split; [exact Hs | now apply matches_denotes]).
Qed.

Lemma is_nil_app {A} (l1 l2 : list A) :
  is_nil (l1 ++ l2) = is_nil l1 && is_nil l2.
Proof. destruct l1; reflexivity. Qed.

Lemma matches_Concat_assoc b e r1 r2 r3 s :
  matches b e (OpConcat (OpConcat r1 r2) r3) s =
  matches b e (OpConcat r1 (OpConcat r2 r3)) s.
Proof.
  apply eq_true_iff_eq. rewrite !matches_Concat. split.
  - intros (s12 & s3 & -> & H12 & H3).
    apply matches_Concat in H12 as (s1 & s2 & -> & H1 & H2).
    exists s1, (s2 ++ s3). rewrite <- app_assoc. split; [reflexivity|].
    rewrite is_nil_app in *. split.
    + replace (e && (is_nil s2 && is_nil s3)) with (e && is_nil s3 && is_nil s2)
        by (destruct e, (is_nil s2), (is_nil s3); reflexivity).
      exact H1.
    + apply matches_Concat. exists s2, s3. split; [reflexivity|].
      rewrite andb_assoc in H3. auto.
  - intros (s1 & s23 & -> & H1 & H23).
    apply matches_Concat in H23 as (s2 & s3 & -> & H2 & H3).
    exists (s1 ++ s2), s3. rewrite app_assoc. split; [reflexivity|].
    rewrite is_nil_app in *. split.
    + apply matches_Concat. exists s1, s2. split; [reflexivity|].
      replace (e && is_nil s3 && is_nil s2) with (e && (is_nil s2 && is_nil s3))
        by (destruct e, (is_nil s2), (is_nil s3); reflexivity).
      auto.
    + rewrite andb_assoc. exact H3.
Qed.

(** A concatenation that opens with a class reads one byte of it. *)
Lemma matches_Concat_class b e cl r s :
  matches b e (OpConcat (OpCharClass cl) r) s =
  match s with
  | [] => false
  | c :: s' => in_class cl c && matches false e r s'
  end.
Proof.
  destruct s as [|c s]; [reflexivity|]. simpl.
  rewrite matches_Alternate, matches_NoMatch, orb_false_r.
  destruct (in_class cl c); simpl.
  - apply matches_Concat_EmptyMatch.
  - apply matches_Concat_NoMatch.
Qed.

Lemma matches_plus_class b e cl s :
  matches b e (plus (OpCharClass cl)) s = nonempty_all (in_class cl) s.
Proof.
  unfold plus. rewrite matches_Concat_class.
  destruct s as [|c s]; [reflexivity|]. simpl.
  now rewrite matches_Star_class.
Qed.

(** The class of a single byte holds that byte only. *)
Lemma in_class_lit a c :
  in_class [(N_of_ascii a, N_of_ascii a)] c = Ascii.eqb c a.
Proof.
  unfold in_class, in_range. simpl. rewrite orb_false_r.
  destruct (Ascii.eqb_spec c a) as [->|Hne].
  - now rewrite N.leb_refl.
  - apply not_true_is_false. intros Hc. apply Hne.
    apply andb_true_iff in Hc as [H1 H2].
    apply N.leb_le in H1, H2.
    rewrite <- (ascii_N_embedding c), <- (ascii_N_embedding a).
    f_equal. lia.
Qed.

Lemma ends_text_sound r :
  ends_text r = true -> forall b s, matches b false r s = false.
Proof.
  induction r as [| | cl | | | r1 IH1 r2 IH2 | r1 IH1 r2 IH2 | r IH];
    simpl; intros Hr b s; try discriminate.
  - rewrite matches_EndText. apply andb_false_r.
  - apply not_true_is_false. rewrite matches_Concat.
    intros (s1 & s2 & _ & H1 & H2). simpl in H1.
    apply orb_true_iff in Hr as [Hr | Hr].
    + rewrite (IH1 Hr) in H1. discriminate.
    + rewrite (IH2 Hr) in H2. discriminate.
  - apply andb_true_iff in Hr as [Hr1 Hr2].
    rewrite matches_Alternate, (IH1 Hr1), (IH2 Hr2). reflexivity.
Qed.

(** An expression that opens with [^] and whose every branch closes
    with [$] has to match the whole string. *)
Lemma MatchString_whole r s :
  ends_text r = true ->
  Regexp_MatchString (OpConcat OpBeginText r) s =
  matches true true r (list_ascii_of_string s).
Proof.
  intros Hr. apply eq_true_iff_eq. rewrite MatchString_spec. split.
  - intros (s1 & s2 & s3 & -> & H).
    apply matches_Concat in H as (a & b & -> & Ha & Hb).
    rewrite matches_BeginText in Ha. apply andb_true_iff in Ha as [Ha Hs1].
    destruct a; [|discriminate]. destruct s1; [|discriminate].
    simpl in Hb. destruct s3.
    + simpl. rewrite app_nil_r. exact Hb.
    + simpl in Hb. rewrite (ends_text_sound r Hr) in Hb. discriminate.
  - intros H. exists [], (list_ascii_of_string s), []. rewrite app_nil_r.
    split; [reflexivity|]. simpl.
    apply matches_Concat. exists [], (list_ascii_of_string s). simpl. auto.
Qed.

End RegexpFacts.

(** ** What the three patterns match *)

Module PatternFacts.
Import GoRegexp RegexpFacts Patterns.
Local Open Scope char_scope.

Lemma Compile_default : Compile default_pattern = inl (OpConcat OpBeginText default_body).
Proof. reflexivity. Qed.

Lemma Compile_number : Compile number_pattern = inl (OpConcat OpBeginText number_body).
Proof. reflexivity. Qed.

Lemma Compile_date : Compile date_pattern = inl (OpConcat OpBeginText date_body).
Proof. reflexivity. Qed.

Lemma in_class_letters c : in_class letters c = is_letter c.
Proof.
  unfold in_class, letters, is_letter, in_range. simpl.
  now rewrite orb_false_r.
Qed.

Lemma in_class_word_bytes c :
  in_class word_bytes c = is_letter c || is_digit c || is_underscore c.
Proof.
  unfold is_underscore. rewrite <- (in_class_lit "_" c).
  unfold in_class, word_bytes, is_letter, is_digit, perl_d, in_range. simpl.
  now rewrite !orb_false_r, !orb_assoc.
Qed.

Lemma matches_default_body b s :
  matches b true default_body s = param_name_syntax s.
Proof.
  unfold default_body. rewrite matches_Concat_class.
  destruct s as [|c s]; [reflexivity|]. unfold param_name_syntax.
  rewrite in_class_letters. f_equal.
  assert (Hstar : forall b' t,
    matches b' true (OpConcat (OpStar (OpCharClass word_bytes)) OpEndText) t
    = forallb (in_class word_bytes) t).
  { intros b' t. apply eq_true_iff_eq. rewrite matches_Concat. split.
    - intros (s1 & s2 & -> & H1 & H2).
      rewrite matches_EndText in H2. destruct s2; [|discriminate].
      rewrite matches_Star_class in H1. now rewrite app_nil_r.
    - intros Ht. exists t, []. rewrite app_nil_r, matches_Star_class.
      auto. }
  rewrite Hstar. clear. induction s as [|x s IH]; [reflexivity|].
  cbn [forallb]. now rewrite in_class_word_bytes, IH.
Qed.

Lemma default_language s :
  Regexp_MatchString (OpConcat OpBeginText default_body) s =
  param_name_syntax (list_ascii_of_string s).
Proof.
  rewrite MatchString_whole by reflexivity. apply matches_default_body.
Qed.

Lemma matches_date_body b s : matches b true date_body s = date_syntax s.
Proof.
  unfold date_body, power, digit, lit.
  do 10 (rewrite ?matches_Concat_assoc, matches_Concat_class;
         destruct s as [|? s];
         [cbn [date_syntax]; now rewrite ?andb_false_r|]).
  rewrite matches_EndText, !in_class_lit.
  destruct s; cbn [date_syntax is_nil].
  - unfold is_digit. now rewrite andb_true_r, !andb_assoc.
  - now rewrite ?andb_false_r.
Qed.

Lemma date_language s :
  Regexp_MatchString (OpConcat OpBeginText date_body) s =
  date_syntax (list_ascii_of_string s).
Proof.
  rewrite MatchString_whole by reflexivity. apply matches_date_body.
Qed.

Lemma nonempty_all_digits s :
  nonempty_all (in_class perl_d) s = true <-> digits1 s.
Proof.
  unfold digits1, is_digit. destruct s as [|c s]; simpl.
  - split; [discriminate | intros [[] _]; reflexivity].
  - rewrite andb_true_iff, forallb_forall, Forall_cons, Forall_forall.
    setoid_rewrite <- list_elem_of_In.
    split; [intros [? ?] | intros [_ [? ?]]]; auto.
Qed.

Lemma matches_sign b e s :
  matches b e (quest (lit "-")) s = true <-> s = [] \/ s = ["-"].
Proof.
  unfold quest, lit.
  rewrite matches_Alternate, matches_CharClass, matches_EmptyMatch, orb_true_iff.
  destruct s as [|c [|c' s]]; cbn [is_nil].
  - split; auto.
  - rewrite in_class_lit. split.
    + intros [Hc | ?]; [|discriminate].
      apply Ascii.eqb_eq in Hc as ->. auto.
    + intros [? | [= ->]]; [discriminate|]. left. reflexivity.
  - split; [intros [? | ?]; discriminate | intros [? | ?]; discriminate].
Qed.

Lemma matches_fraction b e s :
  matches b e (quest (OpConcat (lit ".") (plus digit))) s = true <->
  s = [] \/ exists f, s = "." :: f /\ digits1 f.
Proof.
  unfold quest, lit, digit.
  rewrite matches_Alternate, matches_Concat_class, matches_EmptyMatch, orb_true_iff.
  destruct s as [|c f]; cbn [is_nil].
  - split; auto.
  - rewrite in_class_lit, matches_plus_class, andb_true_iff, nonempty_all_digits.
    split.
    + intros [[Hc Hf] | ?]; [|discriminate].
      apply Ascii.eqb_eq in Hc as ->. right. eauto.
    + intros [? | (f' & [= -> ->] & Hf)]; [discriminate|]. left. auto.
Qed.

Lemma matches_number_body b s :
  matches b true number_body s = true <-> number_syntax s.
Proof.
  unfold number_body. split.
  - intros H.
    apply matches_Concat in H as (sign & t1 & -> & Hsign & H).
    apply matches_Concat in H as (int & t2 & -> & Hint & H).
    apply matches_Concat in H as (frac & t3 & -> & Hfrac & Hend).
    rewrite matches_EndText in Hend. destruct t3; [|discriminate].
    rewrite app_nil_r. constructor.
    + eapply matches_sign, Hsign.
    + unfold digit in Hint. rewrite matches_plus_class in Hint.
      now apply nonempty_all_digits.
    + eapply matches_fraction, Hfrac.
  - intros [sign int frac Hsign Hint Hfrac].
    apply matches_Concat. exists sign, (int ++ frac).
    split; [reflexivity|]. split; [now apply matches_sign|].
    apply matches_Concat. exists int, frac.
    split; [reflexivity|]. split.
    + unfold digit. rewrite matches_plus_class. now apply nonempty_all_digits.
    + apply matches_Concat. exists frac, []. rewrite app_nil_r.
      split; [reflexivity|]. split; [now apply matches_fraction|].
      reflexivity.
Qed.

Lemma number_language s :
  Regexp_MatchString (OpConcat OpBeginText number_body) s = true <->
  number_syntax (list_ascii_of_string s).
Proof.
  rewrite MatchString_whole by reflexivity. apply matches_number_body.
Qed.

End PatternFacts.

(** ** Properties of the validator *)

Section ValidatorFacts.
Context `{RegexpPackage}.

Lemma validateParamName_run param (qv : QueryValidator) :
  validateParamName param qv = (negb (name_pattern_rejects qv param), qv).
Proof.
  unfold validateParamName, name_pattern_rejects, bind, get, ret.
  destruct (paramPatterns qv !! "default"); [|reflexivity].
  now rewrite negb_involutive.
Qed.

Lemma validateParamValue_run value tag (qv : QueryValidator) :
  validateParamValue value tag qv = (negb (validator_rejects qv tag value), qv).
Proof.
  unfold validateParamValue, validator_rejects, bind, get, ret.
  destruct (typeValidators qv !! tag); [|reflexivity].
  now rewrite negb_involutive.
Qed.

Lemma on_qv_run {A} (m : State QueryValidator A) a h :
  m (heap_qv h) = (a, heap_qv h) -> on_qv m h = (a, h).
Proof. unfold on_qv. intros ->. now destruct h. Qed.

Lemma rules_lookup_run param h :
  rules_lookup param h = (heap_rules h !! param, h).
Proof. reflexivity. Qed.

(** The loop leaves the heap as it found it and appends to [errors] the
    records of the pairs, in the order of the visit. *)
Lemma range_queries_run order errors h :
  range_queries order errors h =
  (errors ++ flat_map (three_step_check (heap_qv h) (heap_rules h)) order, h).
Proof.
  revert errors. induction order as [|[param value] rest IH]; intros errors.
  - simpl. unfold ret. now rewrite app_nil_r.
  - cbn [range_queries flat_map three_step_check]. unfold bind at 1.
    rewrite (on_qv_run _ _ _ (validateParamName_run param (heap_qv h))).
    destruct (name_pattern_rejects (heap_qv h) param); cbn [negb].
    + rewrite IH. now rewrite <- app_assoc.
    + unfold bind at 1. rewrite rules_lookup_run.
      destruct (heap_rules h !! param) as [tag|].
      * unfold bind at 1.
        rewrite (on_qv_run _ _ _ (validateParamValue_run value tag (heap_qv h))).
        destruct (validator_rejects (heap_qv h) tag value); cbn [negb].
        -- rewrite IH. now rewrite <- app_assoc.
        -- now rewrite IH.
      * rewrite IH. now rewrite <- app_assoc.
Qed.

Lemma ValidateQuery_run order h :
  ValidateQuery order h =
  (flat_map (three_step_check (heap_qv h) (heap_rules h)) order, h).
Proof. unfold ValidateQuery. now rewrite range_queries_run. Qed.

Lemma three_step_check_length qv rules pv :
  length (three_step_check qv rules pv) =
  if invalid_param qv rules pv then 1 else 0.
Proof.
  destruct pv as [param value]. unfold three_step_check, invalid_param. simpl.
  destruct (name_pattern_rejects qv param); [reflexivity|].
  destruct (rules !! param) as [tag|]; [|reflexivity].
  now destruct (validator_rejects qv tag value).
Qed.

Lemma three_step_check_parameter qv rules param value e :
  e ∈ three_step_check qv rules (param, value) ->
  Parameter_ e = param /\ Value e = value.
Proof.
  unfold three_step_check.
  destruct (name_pattern_rejects qv param).
  { intros ->%list_elem_of_singleton. auto. }
  destruct (rules !! param) as [tag|].
  - destruct (validator_rejects qv tag value).
    + intros ->%list_elem_of_singleton. auto.
    + intros []%elem_of_nil.
  - intros ->%list_elem_of_singleton. auto.
Qed.

Lemma three_step_check_count qv rules order :
  length (flat_map (three_step_check qv rules) order) =
  length (List.filter (invalid_param qv rules) order).
Proof.
  induction order as [|pv rest IH]; [reflexivity|].
  cbn [flat_map List.filter]. rewrite length_app, three_step_check_length, IH.
  now destruct (invalid_param qv rules pv).
Qed.

Lemma elem_of_checks qv rules order e :
  e ∈ flat_map (three_step_check qv rules) order <->
  exists param value, (param, value) ∈ order
    /\ e ∈ three_step_check qv rules (param, value).
Proof.
  rewrite list_elem_of_In, in_flat_map. split.
  - intros ([param value] & Hin & He). exists param, value.
    now rewrite !list_elem_of_In.
  - intros (param & value & Hin & He). exists (param, value).
    now rewrite <- !list_elem_of_In.
Qed.

Lemma filter_none {A} (P : A -> Prop) `{!forall x, Decision (P x)} (l : list A) :
  (forall x, x ∈ l -> ~ P x) -> filter P l = [].
Proof.
  induction l as [|x l IH]; intros Hl; [reflexivity|].
  rewrite filter_cons_False by (apply Hl; left).
  apply IH. intros y Hy. apply Hl. now right.
Qed.

(** A name that is visited once has at most one record. *)
Lemma records_per_parameter qv rules order param :
  NoDup order.*1 ->
  length (filter (fun e => Parameter_ e = param)
            (flat_map (three_step_check qv rules) order)) <= 1.
Proof.
  induction order as [|[p v] rest IH]; [simpl; lia|].
  cbn [flat_map fmap list_fmap fst]. rewrite NoDup_cons. intros [Hp Hrest].
  rewrite filter_app, length_app.
  destruct (decide (p = param)) as [->|Hne].
  - assert (Hnone : filter (fun e => Parameter_ e = param)
                      (flat_map (three_step_check qv rules) rest) = []).
    { apply filter_none. intros e He Heq.
      apply elem_of_checks in He as (p' & v' & Hin & He).
      apply three_step_check_parameter in He as [Hp' _].
      apply Hp. apply list_elem_of_fmap. exists (p', v').
      split; [simpl; congruence | exact Hin]. }
    rewrite Hnone, Nat.add_0_r.
    etransitivity; [apply length_filter|].
    rewrite three_step_check_length.
    destruct (invalid_param qv rules (param, v)); lia.
  - assert (Hnone : filter (fun e => Parameter_ e = param)
                      (three_step_check qv rules (p, v)) = []).
    { apply filter_none. intros e He Heq.
      apply three_step_check_parameter in He as [Hp' _]. congruence. }
    rewrite Hnone. simpl. auto.
Qed.

Lemma range_order_lookup {V} (m : gmap string V) order k v :
  range_order m order -> (k, v) ∈ order <-> m !! k = Some v.
Proof.
  unfold range_order. intros Hperm.
  rewrite Hperm. apply elem_of_map_to_list.
Qed.

Lemma range_order_NoDup {V} (m : gmap string V) order :
  range_order m order -> NoDup order.*1.
Proof.
  unfold range_order. intros Hperm.
  rewrite Hperm. apply NoDup_fst_map_to_list.
Qed.

End ValidatorFacts.

(** *** The run of [ValidateQuery] *)

(** C1: [ValidateQuery] returns exactly the records that the three-step
    check gives for the observed pairs, in the order of the visit: the
    name-format record when the default pattern is registered and
    rejects the name, else the unexpected-parameter record when the name
    is no key of [rules], else the type record when a validator is
    registered under the expected tag and rejects the value.  So a pair
    gives at most one record, a name has at most one record, there are
    as many records as invalid pairs, and every record is about an
    observed pair: a name that is not observed has none. *)
Theorem ValidateQuery_three_step_check `{RegexpPackage}
    (qv : QueryValidator) (rules : gmap string string) (c : Ctx)
    (order : list (string * string)) :
  range_order (Queries c) order ->
  let errors := (ValidateQuery order {| heap_qv := qv; heap_rules := rules |}).1 in
  errors = flat_map (three_step_check qv rules) order
  /\ (forall pv, length (three_step_check qv rules pv) <= 1)
  /\ (forall param, length (filter (fun e => Parameter_ e = param) errors) <= 1)
  /\ length errors = length (List.filter (invalid_param qv rules) order)
  /\ (forall e, e ∈ errors -> Queries c !! Parameter_ e = Some (Value e))
  /\ (forall param, Queries c !! param = None ->
        forall e, e ∈ errors -> Parameter_ e <> param).
Proof.
  intros Horder errors. subst errors. rewrite ValidateQuery_run.
  cbn [fst heap_qv heap_rules].
  assert (Hobs : forall e, e ∈ flat_map (three_step_check qv rules) order ->
                   Queries c !! Parameter_ e = Some (Value e)).
  { intros e (param & value & Hin & He)%elem_of_checks.
    apply three_step_check_parameter in He as [-> ->].
    now apply (range_order_lookup _ _ _ _ Horder). }
  repeat split.
  - intros pv. rewrite three_step_check_length.
    destruct (invalid_param qv rules pv); lia.
  - intros param. apply records_per_parameter.
    now apply (range_order_NoDup (Queries c)).
  - apply three_step_check_count.
  - exact Hobs.
  - intros param Hnone e He Heq. apply Hobs in He.
    rewrite Heq, Hnone in He. discriminate.
Qed.

Lemma ValidateQuery_three_step_check_witness :
  range_order (Queries example_ctx) (map_to_list (Queries example_ctx))
  /\ (ValidateQuery (map_to_list (Queries example_ctx)) example_heap).1
     = flat_map (three_step_check example_validator handler_rules)
         (map_to_list (Queries example_ctx))
  /\ length (ValidateQuery (map_to_list (Queries example_ctx)) example_heap).1 = 3.
Proof.
  split; [unfold range_order; reflexivity|].
  split; [|vm_compute; reflexivity].
  apply (ValidateQuery_three_step_check example_validator handler_rules
           example_ctx (map_to_list (Queries example_ctx))).
  unfold range_order; reflexivity.
Defined.

(** C8: [ValidateQuery] changes nothing: the heap after the call is the
    heap before it, so the two tables of the validator and the [rules]
    map are what they were; and the returned slice is empty exactly when
    no observed pair fails a check. *)
Theorem ValidateQuery_no_side_effects `{RegexpPackage}
    (qv : QueryValidator) (rules : gmap string string) (c : Ctx)
    (order : list (string * string)) :
  range_order (Queries c) order ->
  let h := {| heap_qv := qv; heap_rules := rules |} in
  (ValidateQuery order h).2 = h
  /\ paramPatterns (heap_qv (ValidateQuery order h).2) = paramPatterns qv
  /\ typeValidators (heap_qv (ValidateQuery order h).2) = typeValidators qv
  /\ heap_rules (ValidateQuery order h).2 = rules
  /\ ((ValidateQuery order h).1 = [] <->
      forall param value, Queries c !! param = Some value ->
        invalid_param qv rules (param, value) = false).
Proof.
  intros Horder h. subst h. rewrite ValidateQuery_run.
  cbn [fst snd heap_qv heap_rules]. repeat split.
  - intros Hnil param value Hobs.
    apply (range_order_lookup _ _ _ _ Horder) in Hobs.
    assert (Hlen : length (three_step_check qv rules (param, value)) = 0).
    { destruct (three_step_check qv rules (param, value)) as [|e l] eqn:Hc;
        [reflexivity|].
      assert (He : e ∈ flat_map (three_step_check qv rules) order).
      { apply elem_of_checks. exists param, value. rewrite Hc.
        split; [exact Hobs | left]. }
      rewrite Hnil in He. now apply elem_of_nil in He. }
    rewrite three_step_check_length in Hlen.
    now destruct (invalid_param qv rules (param, value)).
  - intros Hvalid.
    destruct (flat_map (three_step_check qv rules) order) as [|e l] eqn:Hc;
      [reflexivity|].
    assert (He : e ∈ flat_map (three_step_check qv rules) order)
      by (rewrite Hc; left).
    apply elem_of_checks in He as (param & value & Hin & He).
    apply (range_order_lookup _ _ _ _ Horder) in Hin.
    specialize (Hvalid param value Hin).
    pose proof (three_step_check_length qv rules (param, value)) as Hlen.
    rewrite Hvalid in Hlen.
    destruct (three_step_check qv rules (param, value)); [|discriminate].
    now apply elem_of_nil in He.
Qed.

Lemma ValidateQuery_no_side_effects_witness :
  range_order (Queries example_ctx) (map_to_list (Queries example_ctx))
  /\ (ValidateQuery (map_to_list (Queries example_ctx)) example_heap).2
     = example_heap.
Proof.
  split; [unfold range_order; reflexivity|].
  apply (ValidateQuery_no_side_effects example_validator handler_rules
           example_ctx (map_to_list (Queries example_ctx))).
  unfold range_order; reflexivity.
Defined.

(** C9: [ValidateQuery] is total and, up to the order of the visit,
    deterministic: every visit returns a slice and the unchanged heap,
    and two visits of the same observed map, under the same rules and
    the same validator, return the same records with the same
    multiplicities, in an order that may differ. *)
Theorem ValidateQuery_deterministic `{RegexpPackage}
    (qv : QueryValidator) (rules : gmap string string) (c : Ctx)
    (order1 order2 : list (string * string)) :
  range_order (Queries c) order1 ->
  range_order (Queries c) order2 ->
  let h := {| heap_qv := qv; heap_rules := rules |} in
  (ValidateQuery order1 h).1 ≡ₚ (ValidateQuery order2 h).1
  /\ (forall e, count_occ QueryValidationError_eq_dec (ValidateQuery order1 h).1 e
              = count_occ QueryValidationError_eq_dec (ValidateQuery order2 h).1 e)
  /\ (order1 = order2 -> (ValidateQuery order1 h).1 = (ValidateQuery order2 h).1)
  /\ (exists errors, ValidateQuery order1 h = (errors, h)).
Proof.
  intros H1 H2 h. subst h. rewrite !ValidateQuery_run.
  cbn [fst heap_qv heap_rules].
  assert (Hperm : flat_map (three_step_check qv rules) order1
                  ≡ₚ flat_map (three_step_check qv rules) order2).
  { apply Permutation_flat_map. unfold range_order in *. now rewrite H1, H2. }
  repeat split.
  - exact Hperm.
  - intros e. now apply Permutation_count_occ.
  - now intros ->.
  - eexists. reflexivity.
Qed.

Lemma ValidateQuery_deterministic_witness :
  (ValidateQuery (map_to_list (Queries example_ctx)) example_heap).1
  ≡ₚ (ValidateQuery (reverse (map_to_list (Queries example_ctx))) example_heap).1.
Proof.
  apply (ValidateQuery_deterministic example_validator handler_rules
           example_ctx (map_to_list (Queries example_ctx))
           (reverse (map_to_list (Queries example_ctx)))).
  - unfold range_order; reflexivity.
  - unfold range_order. apply reverse_Permutation.
Defined.

(** *** The fallbacks *)

(** C6: the two fallbacks let the value or the name pass.  When no
    validator is registered under the tag that [rules] gives for a
    name, [validateParamValue] answers true and, the name passing its
    own check, the pair yields no record.  When no pattern is registered
    under [default], [validateParamName] answers true for every name. *)
Theorem permissive_fallback `{RegexpPackage}
    (qv : QueryValidator) (rules : gmap string string)
    (param value tag : string) :
  (typeValidators qv !! tag = None ->
     (validateParamValue value tag qv).1 = true
     /\ (rules !! param = Some tag ->
         (validateParamName param qv).1 = true ->
         (ValidateQuery [(param, value)]
            {| heap_qv := qv; heap_rules := rules |}).1 = []))
  /\ (paramPatterns qv !! "default" = None ->
        (validateParamName param qv).1 = true).
Proof.
  split.
  - intros Hnone. rewrite validateParamValue_run. cbn [fst].
    unfold validator_rejects. rewrite Hnone. split; [reflexivity|].
    intros Hrule Hname. rewrite ValidateQuery_run.
    rewrite validateParamName_run in Hname. cbn [fst] in Hname.
    apply negb_true_iff in Hname.
    cbn [fst heap_qv heap_rules flat_map three_step_check].
    unfold validator_rejects. now rewrite Hname, Hrule, Hnone.
  - intros Hnone. rewrite validateParamName_run. cbn [fst].
    unfold name_pattern_rejects. now rewrite Hnone.
Qed.

Lemma permissive_fallback_witness :
  ((validateParamValue "active" "string" example_validator).1 = true
   /\ (ValidateQuery [("status", "active")] example_heap).1 = [])
  /\ (validateParamName "1bad" empty_validator).1 = true.
Proof.
  split.
  - destruct (permissive_fallback example_validator handler_rules
                "status" "active" "string") as [Hvalue _].
    destruct (Hvalue ltac:(vm_compute; reflexivity)) as [Hpass Hnone].
    split; [exact Hpass|].
    apply Hnone; vm_compute; reflexivity.
  - apply (permissive_fallback empty_validator handler_rules
             "1bad" "x" "string").
    vm_compute; reflexivity.
Defined.

(** *** [AddParamPattern] *)

Lemma append_assoc (a b c : string) : (a +:+ b) +:+ c = a +:+ (b +:+ c).
Proof.
  induction a as [|x a IH]; [reflexivity|].
  change (String x ((a +:+ b) +:+ c) = String x (a +:+ (b +:+ c))).
  now rewrite IH.
Qed.

(** C7: when the pattern does not compile, [AddParamPattern] returns an
    error whose message holds the name and the message of the compiler,
    and the validator is left as it was: every entry of the name-pattern
    table, the one under [default] among them, is what it was. *)
Theorem AddParamPattern_invalid `{RegexpPackage}
    (qv : QueryValidator) (name pattern err : string) :
  Compile pattern = inr err ->
  exists message,
    AddParamPattern name pattern qv = (Some message, qv)
    /\ message = "invalid pattern for " +:+ name +:+ ": " +:+ err
    /\ (exists before after, message = before +:+ name +:+ after)
    /\ (exists before, message = before +:+ err)
    /\ paramPatterns (AddParamPattern name pattern qv).2 = paramPatterns qv
    /\ (forall other,
          paramPatterns (AddParamPattern name pattern qv).2 !! other
          = paramPatterns qv !! other).
Proof.
  intros Herr. unfold AddParamPattern. rewrite Herr. unfold ret.
  eexists. split; [reflexivity|]. split; [reflexivity|].
  split; [now exists "invalid pattern for ", (": " +:+ err)|].
  split; [|now split].
  exists ("invalid pattern for " +:+ name +:+ ": ").
  now rewrite !append_assoc.
Qed.

Lemma AddParamPattern_invalid_witness :
  Compile "(" = inr "error parsing regexp: missing closing ): `(`"
  /\ AddParamPattern "foo" "(" example_validator
     = (Some "invalid pattern for foo: error parsing regexp: missing closing ): `(`",
        example_validator).
Proof.
  split; [vm_compute; reflexivity|].
  destruct (AddParamPattern_invalid example_validator "foo" "("
              "error parsing regexp: missing closing ): `(`"
              ltac:(vm_compute; reflexivity))
    as (message & Hrun & -> & _).
  exact Hrun.
Defined.

(** C10: when the pattern compiles, [AddParamPattern] returns no error
    and stores the compiled pattern under the name, over any entry that
    was there; the other entries of the name-pattern table and the whole
    type-validator table stay.  Stored under [default], the pattern
    decides the name-format check from then on. *)
Theorem AddParamPattern_valid `{RegexpPackage}
    (qv : QueryValidator) (name pattern : string) (regex : Regexp) :
  Compile pattern = inl regex ->
  exists qv',
    AddParamPattern name pattern qv = (None, qv')
    /\ paramPatterns qv' = <[name := regex]> (paramPatterns qv)
    /\ paramPatterns qv' !! name = Some regex
    /\ (forall other, other <> name ->
          paramPatterns qv' !! other = paramPatterns qv !! other)
    /\ typeValidators qv' = typeValidators qv
    /\ (name = "default" ->
        forall param, (validateParamName param qv').1 = MatchString regex param).
Proof.
  intros Hok. unfold AddParamPattern. rewrite Hok.
  unfold bind, get, put, ret. eexists. split; [reflexivity|].
  cbn [paramPatterns typeValidators]. repeat split.
  - apply lookup_insert_eq.
  - intros other Hne. now apply lookup_insert_ne.
  - intros -> param. rewrite validateParamName_run. cbn [fst].
    unfold name_pattern_rejects. cbn [paramPatterns].
    rewrite lookup_insert_eq. apply negb_involutive.
Qed.

Lemma AddParamPattern_valid_witness :
  (AddParamPattern "default" "^[0-9]+$" example_validator).1 = None
  /\ (validateParamName "abc" example_validator).1 = true
  /\ (validateParamName "abc"
        (AddParamPattern "default" "^[0-9]+$" example_validator).2).1 = false
  /\ (validateParamName "123"
        (AddParamPattern "default" "^[0-9]+$" example_validator).2).1 = true.
Proof.
  destruct (AddParamPattern_valid example_validator "default" "^[0-9]+$"
              (GoRegexp.OpConcat GoRegexp.OpBeginText
                 (GoRegexp.OpConcat
                    (GoRegexp.plus (GoRegexp.OpCharClass [(48, 57)%N]))
                    GoRegexp.OpEndText))
              ltac:(vm_compute; reflexivity))
    as (qv' & Hrun & _ & _ & _ & _ & Hdefault).
  rewrite Hrun. cbn [fst snd].
  rewrite !(Hdefault eq_refl).
  repeat split; vm_compute; reflexivity.
Defined.

(** *** The tables of [NewQueryValidator] *)

Section Construction.
Context `{RegexpPackage} `{GoStrings.UnicodeTables}.

(** The three built-in validators are registered whatever becomes of
    the default pattern. *)
Lemma NewQueryValidator_typeValidators :
  typeValidators NewQueryValidator =
  <["date" := date_validator]>
    (<["boolean" := boolean_validator]> (<["number" := number_validator]> ∅)).
Proof.
  unfold NewQueryValidator, AddParamPattern, AddTypeValidator, bind, get, put, ret.
  now destruct (Compile "^[a-zA-Z][a-zA-Z0-9_]*$").
Qed.

Lemma NewQueryValidator_paramPatterns pattern :
  Compile "^[a-zA-Z][a-zA-Z0-9_]*$" = inl pattern ->
  paramPatterns NewQueryValidator = <["default" := pattern]> ∅.
Proof.
  intros Hok.
  unfold NewQueryValidator, AddParamPattern, AddTypeValidator, bind, get, put, ret.
  now rewrite Hok.
Qed.

Lemma lower_bytes_no_upper s :
  GoStrings.hasUpper s = false -> GoStrings.lower_bytes s = s.
Proof.
  induction s as [|c s IH]; [reflexivity|]. simpl.
  intros [Hc Hs]%orb_false_iff. unfold GoStrings.lower_byte.
  now rewrite Hc, IH.
Qed.

Lemma ToLower_ascii s :
  GoStrings.isASCII s = true -> GoStrings.ToLower s = GoStrings.lower_bytes s.
Proof.
  unfold GoStrings.ToLower. intros ->.
  destruct (GoStrings.hasUpper s) eqn:Hup; [reflexivity|].
  symmetry. now apply lower_bytes_no_upper.
Qed.

End Construction.

(** *** The built-in checks *)

(** C2: in the validator that [NewQueryValidator] builds, the pattern
    [^[a-zA-Z][a-zA-Z0-9_]*$] is compiled and registered under
    [default], and the name-format check passes for the names that the
    pattern matches and only for them: an ASCII letter followed by
    letters, digits and underscores.  Any other name is reported with
    the message of the name-format check; the names [1abc], the empty
    name and [a-b] are such names. *)
Theorem default_name_format `{GoStrings.UnicodeTables} :
  let qv := NewQueryValidator (H := re2) in
  exists pattern,
    Compile "^[a-zA-Z][a-zA-Z0-9_]*$" = inl pattern
    /\ paramPatterns qv !! "default" = Some pattern
    /\ (forall s, (validateParamName s qv).1 = MatchString pattern s)
    /\ (forall s, (validateParamName s qv).1 = true <->
                  Patterns.param_name_syntax (list_ascii_of_string s) = true)
    /\ (forall s value rules,
          Patterns.param_name_syntax (list_ascii_of_string s) = false ->
          (ValidateQuery [(s, value)] {| heap_qv := qv; heap_rules := rules |}).1
          = [error_record s value "invalid parameter name format"])
    /\ (validateParamName "1abc" qv).1 = false
    /\ (validateParamName EmptyString qv).1 = false
    /\ (validateParamName "a-b" qv).1 = false
    /\ (validateParamName "user_id2" qv).1 = true.
Proof.
  intros qv.
  assert (Hname : forall s, (validateParamName s qv).1
            = Patterns.param_name_syntax (list_ascii_of_string s)).
  { intros s. rewrite validateParamName_run. cbn [fst].
    unfold name_pattern_rejects, qv.
    rewrite (NewQueryValidator_paramPatterns (H := re2) _ PatternFacts.Compile_default).
    rewrite lookup_insert_eq, negb_involutive.
    apply PatternFacts.default_language. }
  eexists. split; [exact PatternFacts.Compile_default|].
  split; [unfold qv;
          now rewrite (NewQueryValidator_paramPatterns (H := re2) _ PatternFacts.Compile_default),
                      lookup_insert_eq|].
  split; [intros s; rewrite Hname; symmetry; apply PatternFacts.default_language|].
  split; [intros s; now rewrite Hname|].
  split.
  - intros s value rules Hbad. rewrite ValidateQuery_run.
    cbn [fst heap_qv heap_rules flat_map three_step_check].
    specialize (Hname s). rewrite validateParamName_run in Hname.
    cbn [fst] in Hname. rewrite Hbad in Hname.
    apply negb_false_iff in Hname. now rewrite Hname.
  - rewrite !Hname. repeat split; reflexivity.
Qed.

(** C3: the validator registered under [number] accepts the strings
    that [^-?\d+(\.\d+)?$] matches and only them: an optional minus
    sign, one or more digits and, optionally, a dot with one or more
    digits after it.  It accepts [42] and [-3.5] and rejects [abc] and
    [3.]. *)
Theorem number_validator_language `{GoStrings.UnicodeTables} :
  exists validator pattern,
    typeValidators (NewQueryValidator (H := re2)) !! "number" = Some validator
    /\ Compile "^-?\d+(\.\d+)?$" = inl pattern
    /\ (forall v, validator v = MatchString pattern v)
    /\ (forall v, validator v = true <->
                  Patterns.number_syntax (list_ascii_of_string v))
    /\ validator "42" = true
    /\ validator "-3.5" = true
    /\ validator "abc" = false
    /\ validator "3." = false.
Proof.
  exists number_validator. eexists.
  split; [now rewrite NewQueryValidator_typeValidators|].
  split; [exact PatternFacts.Compile_number|].
  assert (Hrun : forall v, number_validator (H := re2) v
            = GoRegexp.Regexp_MatchString
                (GoRegexp.OpConcat GoRegexp.OpBeginText Patterns.number_body) v)
    by reflexivity.
  split; [exact Hrun|].
  split; [intros v; rewrite Hrun; apply PatternFacts.number_language|].
  repeat split; reflexivity.
Qed.

(** C4: the validator registered under [boolean] accepts a string
    exactly when its lower-case form is [true], [false], [1] or [0]; for
    an ASCII string the lower-case form is the string with its capital
    letters lowered.  It accepts [TRUE] and rejects [yes]. *)
Theorem boolean_validator_accepts `{RegexpPackage} `{GoStrings.UnicodeTables} :
  exists validator,
    typeValidators NewQueryValidator !! "boolean" = Some validator
    /\ (forall v, validator v = true <->
                  GoStrings.ToLower v ∈ ["true"; "false"; "1"; "0"])
    /\ (forall v, GoStrings.isASCII v = true ->
                  (validator v = true <->
                   GoStrings.lower_bytes v ∈ ["true"; "false"; "1"; "0"]))
    /\ validator "TRUE" = true
    /\ validator "yes" = false.
Proof.
  exists boolean_validator.
  split; [now rewrite NewQueryValidator_typeValidators|].
  assert (Hiff : forall v, boolean_validator v = true <->
            GoStrings.ToLower v ∈ ["true"; "false"; "1"; "0"]).
  { intros v. unfold boolean_validator.
    rewrite !orb_true_iff, !String.eqb_eq, !elem_of_cons, elem_of_nil.
    tauto. }
  split; [exact Hiff|].
  split; [intros v Hv; now rewrite Hiff, ToLower_ascii|].
  split; reflexivity.
Qed.

(** C5: the validator registered under [date] accepts the strings that
    [^\d{4}-\d{2}-\d{2}$] matches and only them: four digits, a dash,
    two digits, a dash, two digits.  Nothing checks the calendar:
    [2024-13-99] is accepted. *)
Theorem date_validator_language `{GoStrings.UnicodeTables} :
  exists validator pattern,
    typeValidators (NewQueryValidator (H := re2)) !! "date" = Some validator
    /\ Compile "^\d{4}-\d{2}-\d{2}$" = inl pattern
    /\ (forall v, validator v = MatchString pattern v)
    /\ (forall v, validator v = true <->
                  Patterns.date_syntax (list_ascii_of_string v) = true)
    /\ validator "2024-13-99" = true
    /\ validator "2024-01-15" = true
    /\ validator "2024-1-15" = false.
Proof.
  exists date_validator. eexists.
  split; [now rewrite NewQueryValidator_typeValidators|].
  split; [exact PatternFacts.Compile_date|].
  assert (Hrun : forall v, date_validator (H := re2) v
            = GoRegexp.Regexp_MatchString
                (GoRegexp.OpConcat GoRegexp.OpBeginText Patterns.date_body) v)
    by reflexivity.
  split; [exact Hrun|].
  split; [intros v; now rewrite Hrun, PatternFacts.date_language|].
  repeat split; reflexivity.
Qed.

(** ** Further properties *)

Section MoreFacts.
Context `{RegexpPackage}.

Lemma three_step_check_nil qv rules pv :
  three_step_check qv rules pv = [] <-> invalid_param qv rules pv = false.
Proof.
  pose proof (three_step_check_length qv rules pv) as Hlen.
  destruct (invalid_param qv rules pv);
    destruct (three_step_check qv rules pv); simpl in Hlen;
    split; intros; congruence.
Qed.

Lemma no_records_iff qv rules order :
  flat_map (three_step_check qv rules) order = [] <->
  forall pv, pv ∈ order -> invalid_param qv rules pv = false.
Proof.
  induction order as [|pv rest IH].
  - split; [intros _ pv []%elem_of_nil | reflexivity].
  - cbn [flat_map]. split.
    + intros [Hpv Hrest]%app_eq_nil pv' [->|Hin]%elem_of_cons.
      * now apply three_step_check_nil.
      * now apply IH.
    + intros Hall.
      rewrite (proj2 (three_step_check_nil qv rules pv) (Hall pv ltac:(left))).
      apply IH. intros pv' Hin. apply Hall. now right.
Qed.

Lemma length_filter_all {A} (f : A -> bool) (l : list A) :
  length (List.filter f l) <= length l
  /\ (length (List.filter f l) = length l <-> forall x, x ∈ l -> f x = true).
Proof.
  induction l as [|x l [IHle IHeq]].
  - split; [reflexivity|]. split; [intros _ x []%elem_of_nil | reflexivity].
  - cbn [List.filter]. destruct (f x) eqn:Hx; cbn [length].
    + split; [lia|]. split.
      * intros Hlen y [->|Hin]%elem_of_cons; [exact Hx|].
        apply IHeq; [lia | exact Hin].
      * intros Hall. f_equal. apply IHeq. intros y Hin. apply Hall. now right.
    + split; [lia|]. split; [lia|].
      intros Hall. specialize (Hall x ltac:(left)). congruence.
Qed.

End MoreFacts.

(** X1: [AddTypeValidator] stores the validator under the name, over any
    entry that was there, and touches nothing else: the other entries of
    the type-validator table, the name-pattern table and the name-format
    check stay.  From then on the stored validator decides the value
    check for that tag: a pair whose name passes and whose rule is the
    tag yields no record when the validator accepts the value and the
    type record when it rejects it. *)
Theorem AddTypeValidator_registers `{RegexpPackage}
    (qv : QueryValidator) (name : string) (validator : string -> bool) :
  let qv' := (AddTypeValidator name validator qv).2 in
  typeValidators qv' !! name = Some validator
  /\ (forall other, other <> name ->
        typeValidators qv' !! other = typeValidators qv !! other)
  /\ paramPatterns qv' = paramPatterns qv
  /\ (forall param, (validateParamName param qv').1 = (validateParamName param qv).1)
  /\ (forall value, (validateParamValue value name qv').1 = validator value)
  /\ (forall rules param value,
        rules !! param = Some name ->
        (validateParamName param qv).1 = true ->
        (ValidateQuery [(param, value)] {| heap_qv := qv'; heap_rules := rules |}).1
        = if validator value then []
          else [error_record param value ("invalid value for type " +:+ name)]).
Proof.
  intros qv'. subst qv'. unfold AddTypeValidator, bind, get, put. cbn [snd].
  split; [cbn [typeValidators]; apply lookup_insert_eq|].
  split; [intros other Hne; cbn [typeValidators]; now apply lookup_insert_ne|].
  split; [reflexivity|].
  split; [intros param; now rewrite !validateParamName_run|].
  split.
  - intros value. rewrite validateParamValue_run. cbn [fst].
    unfold validator_rejects. cbn [typeValidators].
    rewrite lookup_insert_eq. apply negb_involutive.
  - intros rules param value Hrule Hpass. rewrite ValidateQuery_run.
    rewrite validateParamName_run in Hpass. cbn [fst] in Hpass.
    apply negb_true_iff in Hpass.
    cbn [fst heap_qv heap_rules flat_map three_step_check].
    unfold name_pattern_rejects in *. cbn [paramPatterns].
    rewrite Hpass, Hrule.
    unfold validator_rejects. cbn [typeValidators]. rewrite lookup_insert_eq.
    now destruct (validator value).
Qed.

(** X2: only the entry under [default] is ever read.  A pattern added
    under another name, whether it compiles or not, changes neither the
    name-format check nor what [ValidateQuery] returns. *)
Theorem AddParamPattern_other_name `{RegexpPackage}
    (qv : QueryValidator) (name pattern : string) :
  name <> "default" ->
  let qv' := (AddParamPattern name pattern qv).2 in
  (forall param, (validateParamName param qv').1 = (validateParamName param qv).1)
  /\ (forall rules order,
        (ValidateQuery order {| heap_qv := qv'; heap_rules := rules |}).1
        = (ValidateQuery order {| heap_qv := qv; heap_rules := rules |}).1).
Proof.
  intros Hne qv'.
  assert (Hpp : paramPatterns qv' !! "default" = paramPatterns qv !! "default"
                /\ typeValidators qv' = typeValidators qv).
  { subst qv'. unfold AddParamPattern.
    destruct (Compile pattern) as [regex|err]; [|now split].
    unfold bind, get, put, ret. cbn [snd paramPatterns typeValidators].
    split; [|reflexivity]. apply lookup_insert_ne. exact Hne. }
  destruct Hpp as [Hpp Htv].
  assert (Hname : forall param,
            name_pattern_rejects qv' param = name_pattern_rejects qv param).
  { intros param. unfold name_pattern_rejects. now rewrite Hpp. }
  split.
  - intros param. rewrite !validateParamName_run. cbn [fst]. now rewrite Hname.
  - intros rules order. rewrite !ValidateQuery_run.
    cbn [fst heap_qv heap_rules].
    induction order as [|[param value] rest IH]; [reflexivity|].
    cbn [flat_map three_step_check]. rewrite IH, Hname.
    unfold validator_rejects. now rewrite Htv.
Qed.

Lemma AddParamPattern_other_name_witness :
  (ValidateQuery (map_to_list (Queries example_ctx))
     {| heap_qv := (AddParamPattern "digits" "^[0-9]+$" example_validator).2;
        heap_rules := handler_rules |}).1
  = (ValidateQuery (map_to_list (Queries example_ctx)) example_heap).1.
Proof.
  apply (AddParamPattern_other_name example_validator "digits" "^[0-9]+$").
  discriminate.
Defined.

(** X3: what [NewQueryValidator] builds, for any regexp package.  The
    type-validator table holds exactly [number], [boolean] and [date],
    so a value under any other tag passes.  The name-pattern table holds
    [default] alone when the default pattern compiles; when it does not,
    the error is dropped, the table is empty and every name passes the
    name-format check. *)
Theorem NewQueryValidator_tables `{RegexpPackage} `{GoStrings.UnicodeTables} :
  dom (typeValidators NewQueryValidator) = {["number"; "boolean"; "date"]}
  /\ (forall tag value,
        tag <> "number" -> tag <> "boolean" -> tag <> "date" ->
        (validateParamValue value tag NewQueryValidator).1 = true)
  /\ (forall pattern,
        Compile "^[a-zA-Z][a-zA-Z0-9_]*$" = inl pattern ->
        paramPatterns NewQueryValidator = {["default" := pattern]})
  /\ (forall err,
        Compile "^[a-zA-Z][a-zA-Z0-9_]*$" = inr err ->
        paramPatterns NewQueryValidator = ∅
        /\ forall param, (validateParamName param NewQueryValidator).1 = true).
Proof.
  split; [rewrite NewQueryValidator_typeValidators, !dom_insert_L, dom_empty_L;
          set_solver|].
  split.
  { intros tag value Hn Hb Hd. rewrite validateParamValue_run. cbn [fst].
    unfold validator_rejects. rewrite NewQueryValidator_typeValidators.
    now rewrite !lookup_insert_ne, lookup_empty by congruence. }
  split.
  { intros pattern Hok.
    now rewrite (NewQueryValidator_paramPatterns _ Hok), insert_empty. }
  intros err Herr.
  assert (Hpp : paramPatterns NewQueryValidator = ∅).
  { unfold NewQueryValidator, AddParamPattern, AddTypeValidator, bind, get, put, ret.
    now rewrite Herr. }
  split; [exact Hpp|].
  intros param. rewrite validateParamName_run. cbn [fst].
  unfold name_pattern_rejects. now rewrite Hpp, lookup_empty.
Qed.

Lemma NewQueryValidator_tables_witness :
  paramPatterns (@NewQueryValidator refusing_package identity_tables) = ∅
  /\ (validateParamName "1bad"
        (@NewQueryValidator refusing_package identity_tables)).1 = true.
Proof.
  destruct (@NewQueryValidator_tables refusing_package identity_tables)
    as (_ & _ & _ & Hrefused).
  destruct (Hrefused "refused" eq_refl) as [Hempty Hpass].
  split; [exact Hempty | apply Hpass].
Defined.



(** X5: [ValidateQuery] never returns more records than there are
    observed parameters; it returns none for a request without
    parameters, and as many as there are parameters exactly when every
    observed pair fails a check. *)
Theorem ValidateQuery_bounded `{RegexpPackage}
    (qv : QueryValidator) (rules : gmap string string) (c : Ctx)
    (order : list (string * string)) :
  range_order (Queries c) order ->
  let errors := (ValidateQuery order {| heap_qv := qv; heap_rules := rules |}).1 in
  length errors <= size (Queries c)
  /\ (Queries c = ∅ -> errors = [])
  /\ (length errors = size (Queries c) <->
      forall param value, Queries c !! param = Some value ->
        invalid_param qv rules (param, value) = true).
Proof.
  intros Horder errors. subst errors. rewrite ValidateQuery_run.
  cbn [fst heap_qv heap_rules]. rewrite three_step_check_count.
  assert (Hsize : length order = size (Queries c)).
  { unfold range_order in Horder. rewrite Horder. apply length_map_to_list. }
  destruct (length_filter_all (invalid_param qv rules) order) as [Hle Heq].
  rewrite <- Hsize. split; [exact Hle|]. split.
  - intros Hempty. rewrite Hempty, map_size_empty in Hsize.
    destruct order; [reflexivity | discriminate].
  - rewrite Heq. split.
    + intros Hall param value Hobs. apply Hall.
      now apply (range_order_lookup _ _ _ _ Horder).
    + intros Hall [param value] Hin. apply Hall.
      now apply (range_order_lookup _ _ _ _ Horder).
Qed.

Lemma ValidateQuery_bounded_witness :
  length (ValidateQuery (map_to_list (Queries example_ctx)) example_heap).1
  <= size (Queries example_ctx).
Proof.
  apply (ValidateQuery_bounded example_validator handler_rules example_ctx
           (map_to_list (Queries example_ctx))).
  unfold range_order; reflexivity.
Defined.

(** X6: the records come in the order of the visit.  The pairs the
    records are about form a subsequence of the pairs visited: no record
    moves before a record of a pair visited earlier, and no pair is
    reported twice. *)
Theorem ValidateQuery_keeps_order `{RegexpPackage}
    (qv : QueryValidator) (rules : gmap string string)
    (order : list (string * string)) :
  sublist
    ((fun e => (Parameter_ e, Value e)) <$>
       (ValidateQuery order {| heap_qv := qv; heap_rules := rules |}).1)
    order.
Proof.
  rewrite ValidateQuery_run. cbn [fst heap_qv heap_rules].
  induction order as [|[param value] rest IH]; [constructor|].
  cbn [flat_map]. rewrite fmap_app.
  assert (Hone : three_step_check qv rules (param, value) = []
                 \/ exists m, three_step_check qv rules (param, value)
                              = [error_record param value m]).
  { unfold three_step_check. destruct (name_pattern_rejects qv param); [eauto|].
    destruct (rules !! param) as [tag|]; [|eauto].
    destruct (validator_rejects qv tag value); eauto. }
  destruct Hone as [-> | [m ->]].
  - now apply sublist_cons.
  - now apply sublist_skip.
Qed.

(** X7: every record says which check failed, and only that one.  Its
    message is the name-format message and the default pattern rejects
    the name; or the name passes, is no key of [rules], and the message
    is the unexpected-parameter message; or the name passes, [rules]
    gives it a tag, the validator under that tag rejects the value and
    the message names the tag.  So no type record is made for an
    undeclared name. *)
Theorem ValidateQuery_messages `{RegexpPackage}
    (qv : QueryValidator) (rules : gmap string string)
    (order : list (string * string)) :
  Forall (fun e =>
    (Message e = "invalid parameter name format"
     /\ name_pattern_rejects qv (Parameter_ e) = true)
    \/ (Message e = "unexpected parameter"
        /\ name_pattern_rejects qv (Parameter_ e) = false
        /\ rules !! Parameter_ e = None)
    \/ (exists tag,
          Message e = "invalid value for type " +:+ tag
          /\ name_pattern_rejects qv (Parameter_ e) = false
          /\ rules !! Parameter_ e = Some tag
          /\ validator_rejects qv tag (Value e) = true))
    (ValidateQuery order {| heap_qv := qv; heap_rules := rules |}).1.
Proof.
  rewrite ValidateQuery_run. cbn [fst heap_qv heap_rules].
  apply Forall_forall. intros e (param & value & _ & He)%elem_of_checks.
  unfold three_step_check in He.
  destruct (name_pattern_rejects qv param) eqn:Hname.
  { apply list_elem_of_singleton in He as ->. left. auto. }
  destruct (rules !! param) as [tag|] eqn:Hrule.
  - destruct (validator_rejects qv tag value) eqn:Hval.
    + apply list_elem_of_singleton in He as ->. right. right.
      exists tag. auto.
    + now apply elem_of_nil in He.
  - apply list_elem_of_singleton in He as ->. right. left. auto.
Qed.

(** X8: what [ValidateQuery] returns depends only on the entry under
    [default], on the rules of the observed names and on what the
    validators under the tags of those rules say about the observed
    values.  Rules for names that are not observed, patterns under
    other names and validators under other tags play no part. *)
Theorem ValidateQuery_depends_on `{RegexpPackage}
    (qv1 qv2 : QueryValidator) (rules1 rules2 : gmap string string) (c : Ctx)
    (order : list (string * string)) :
  range_order (Queries c) order ->
  paramPatterns qv1 !! "default" = paramPatterns qv2 !! "default" ->
  (forall param value, Queries c !! param = Some value ->
     rules1 !! param = rules2 !! param) ->
  (forall param value tag, Queries c !! param = Some value ->
     rules1 !! param = Some tag ->
     validator_rejects qv1 tag value = validator_rejects qv2 tag value) ->
  (ValidateQuery order {| heap_qv := qv1; heap_rules := rules1 |}).1
  = (ValidateQuery order {| heap_qv := qv2; heap_rules := rules2 |}).1.
Proof.
  intros Horder Hdefault Hrules Hvals. rewrite !ValidateQuery_run.
  cbn [fst heap_qv heap_rules].
  assert (Hobs : forall param value, (param, value) ∈ order ->
                   Queries c !! param = Some value).
  { intros param value Hin. now apply (range_order_lookup _ _ _ _ Horder). }
  clear Horder. induction order as [|[param value] rest IH]; [reflexivity|].
  cbn [flat_map]. rewrite IH by (intros p v Hin; apply Hobs; now right).
  f_equal. unfold three_step_check, name_pattern_rejects. rewrite Hdefault.
  specialize (Hobs param value ltac:(left)).
  rewrite <- (Hrules param value Hobs).
  destruct (rules1 !! param) as [tag|] eqn:Hrule; [|reflexivity].
  now rewrite (Hvals param value tag Hobs Hrule).
Qed.

Lemma ValidateQuery_depends_on_witness :
  (ValidateQuery (map_to_list (Queries example_ctx)) example_heap).1
  = (ValidateQuery (map_to_list (Queries example_ctx))
       {| heap_qv := example_validator;
          heap_rules := <["page" := "number"]> handler_rules |}).1.
Proof.
  apply (ValidateQuery_depends_on example_validator example_validator
           handler_rules (<["page" := "number"]> handler_rules) example_ctx
           (map_to_list (Queries example_ctx))).
  - unfold range_order; reflexivity.
  - reflexivity.
  - intros param value Hobs. rewrite lookup_insert_ne; [reflexivity|].
    intros <-. vm_compute in Hobs. discriminate.
  - reflexivity.
Defined.

(** X9: two calls of [AddParamPattern] under one name: when the second
    pattern compiles the validator is as if only the second call was
    made; when it does not, the validator is what the first call left,
    so a failed call never removes an earlier registration.  Calls under
    different names can be swapped. *)
Theorem AddParamPattern_twice `{RegexpPackage}
    (qv : QueryValidator) (name name' p1 p2 : string) :
  (forall regex, Compile p2 = inl regex ->
     (AddParamPattern name p2 (AddParamPattern name p1 qv).2).2
     = (AddParamPattern name p2 qv).2)
  /\ (forall err, Compile p2 = inr err ->
        (AddParamPattern name p2 (AddParamPattern name p1 qv).2).2
        = (AddParamPattern name p1 qv).2)
  /\ (name <> name' ->
        (AddParamPattern name' p2 (AddParamPattern name p1 qv).2).2
        = (AddParamPattern name p1 (AddParamPattern name' p2 qv).2).2).
Proof.
  unfold AddParamPattern, bind, get, put, ret. repeat split.
  - intros regex ->. destruct (Compile p1); cbn [snd paramPatterns typeValidators];
      [|reflexivity].
    now rewrite insert_insert_eq.
  - intros err ->. reflexivity.
  - intros Hne. destruct (Compile p1), (Compile p2);
      cbn [snd paramPatterns typeValidators]; try reflexivity.
    f_equal. now apply insert_insert_ne.
Qed.

Lemma AddParamPattern_twice_witness :
  (AddParamPattern "default" "^[0-9]+$"
     (AddParamPattern "default" "^[a-z]+$" example_validator).2).2
  = (AddParamPattern "default" "^[0-9]+$" example_validator).2
  /\ (AddParamPattern "default" "("
        (AddParamPattern "default" "^[a-z]+$" example_validator).2).2
     = (AddParamPattern "default" "^[a-z]+$" example_validator).2.
Proof.
  split.
  - destruct (AddParamPattern_twice example_validator "default" "default"
                "^[a-z]+$" "^[0-9]+$") as (Hlast & _ & _).
    apply (Hlast (GoRegexp.OpConcat GoRegexp.OpBeginText
                    (GoRegexp.OpConcat
                       (GoRegexp.plus (GoRegexp.OpCharClass [(48, 57)%N]))
                       GoRegexp.OpEndText))).
    vm_compute. reflexivity.
  - destruct (AddParamPattern_twice example_validator "default" "default"
                "^[a-z]+$" "(") as (_ & Hkeep & _).
    apply (Hkeep "error parsing regexp: missing closing ): `(`").
    vm_compute. reflexivity.
Defined.

(** *** The handler *)

Lemma handler_rules_lookup param :
  handler_rules !! param =
  if decide (param = "age") then Some "number"
  else if decide (param = "status") then Some "string"
  else if decide (param = "search") then Some "string"
  else None.
Proof.
  unfold handler_rules. rewrite !lookup_insert, lookup_empty.
  repeat case_decide; congruence.
Qed.

Lemma handler_valid_pair `{GoStrings.UnicodeTables} param value :
  invalid_param (NewQueryValidator (H := re2)) handler_rules (param, value) = false
  <-> (param = "age" /\ Patterns.number_syntax (list_ascii_of_string value))
      \/ param = "status" \/ param = "search".
Proof.
  unfold invalid_param. cbn [fst snd].
  assert (Hname : name_pattern_rejects (NewQueryValidator (H := re2)) param
                  = negb (Patterns.param_name_syntax (list_ascii_of_string param))).
  { unfold name_pattern_rejects.
    rewrite (NewQueryValidator_paramPatterns (H := re2) _ PatternFacts.Compile_default).
    rewrite lookup_insert_eq. f_equal. apply PatternFacts.default_language. }
  assert (Hnumber : validator_rejects (NewQueryValidator (H := re2)) "number" value
                    = negb (number_validator (H := re2) value)).
  { unfold validator_rejects. now rewrite NewQueryValidator_typeValidators. }
  assert (Hstring : validator_rejects (NewQueryValidator (H := re2)) "string" value
                    = false).
  { unfold validator_rejects. now rewrite NewQueryValidator_typeValidators. }
  rewrite Hname, handler_rules_lookup.
  destruct (decide (param = "age")) as [->|Hage].
  { rewrite Hnumber. cbn [negb orb Patterns.param_name_syntax].
    change (Patterns.param_name_syntax (list_ascii_of_string "age")) with true.
    cbn [negb orb]. rewrite negb_false_iff.
    change (number_validator (H := re2) value)
      with (GoRegexp.Regexp_MatchString
              (GoRegexp.OpConcat GoRegexp.OpBeginText Patterns.number_body) value).
    rewrite PatternFacts.number_language.
    split; [auto | intros [[_ Hn] | [? | ?]]; [exact Hn | discriminate..]]. }
  destruct (decide (param = "status")) as [->|Hstatus].
  { rewrite Hstring.
    change (Patterns.param_name_syntax (list_ascii_of_string "status")) with true.
    split; auto. }
  destruct (decide (param = "search")) as [->|Hsearch].
  { rewrite Hstring.
    change (Patterns.param_name_syntax (list_ascii_of_string "search")) with true.
    split; auto. }
  rewrite orb_true_r. split; [discriminate|].
  intros [[? _] | [? | ?]]; contradiction.
Qed.

(** X10: [getAllUsersHandler] writes nothing exactly when every observed
    parameter is [age], [status] or [search] and the value of [age], if
    there is one, is a number; the values of [status] and [search] are
    never looked at.  In every other case it answers with status 400 and
    a list of errors that is not empty. *)
Theorem getAllUsersHandler_accepts `{GoStrings.UnicodeTables}
    (c : Ctx) (order : list (string * string)) :
  range_order (Queries c) order ->
  (getAllUsersHandler (H := re2) order = None <->
     forall param value, Queries c !! param = Some value ->
       (param = "age" /\ Patterns.number_syntax (list_ascii_of_string value))
       \/ param = "status" \/ param = "search")
  /\ (forall resp, getAllUsersHandler (H := re2) order = Some resp ->
        resp_status resp = 400
        /\ resp_errors resp <> []
        /\ resp_errors resp
           = (ValidateQuery order
                {| heap_qv := NewQueryValidator (H := re2);
                   heap_rules := handler_rules |}).1).
Proof.
  intros Horder. unfold getAllUsersHandler. rewrite ValidateQuery_run.
  cbn [fst heap_qv heap_rules]. split.
  - destruct (flat_map _ order) as [|e errors] eqn:Herrors; cbn [length Nat.ltb Nat.leb].
    + split; [|reflexivity]. intros _ param value Hobs.
      apply handler_valid_pair.
      apply (proj1 (no_records_iff _ _ _) Herrors).
      now apply (range_order_lookup _ _ _ _ Horder).
    + split; [discriminate|]. intros Hall. exfalso.
      assert (Hnil : flat_map (three_step_check (NewQueryValidator (H := re2))
                                 handler_rules) order = []).
      { apply no_records_iff. intros [param value] Hin.
        apply handler_valid_pair, Hall.
        now apply (range_order_lookup _ _ _ _ Horder). }
      rewrite Hnil in Herrors. discriminate.
  - intros resp.
    destruct (flat_map _ order) as [|e errors]; cbn [length Nat.ltb Nat.leb];
      [discriminate|].
    intros [= <-]. cbn [resp_status resp_errors]. repeat split. discriminate.
Qed.

Lemma getAllUsersHandler_accepts_witness :
  @getAllUsersHandler re2 identity_tables
    (map_to_list (<["age" := "30"]> (<["status" := "active"]> ∅))) = None.
Proof.
  apply (@getAllUsersHandler_accepts identity_tables
           {| Queries := <["age" := "30"]> (<["status" := "active"]> ∅) |}
           (map_to_list (<["age" := "30"]> (<["status" := "active"]> ∅)))).
  - unfold range_order; reflexivity.
  - intros param value Hobs. cbn [Queries] in Hobs.
    rewrite lookup_insert in Hobs. case_decide as Hage.
    + injection Hobs as <-. left. split; [now symmetry|].
      apply PatternFacts.number_language. vm_compute. reflexivity.
    + rewrite lookup_insert in Hobs. case_decide as Hstatus; [|discriminate].
      right. left. now symmetry.
Defined.
